(** * Content Claims: derived-claim resolver and client reader

    A shallow embedding of

      - [packages/lambda/src/lib/store/block-index.js]
        ([BlockIndexClaimFetcher.get], [buildLocationClaim],
        [buildRelationClaim], [buildClaim], [encodeIndex],
        [bucketKeyToPartCID]), and
      - [packages/core/src/client/index.js]
        ([decode], [claimType], [fetch], [read]).

    JavaScript numbers that hold byte counts, offsets and epoch times are
    integers well inside the exact range of a double; they are modelled as
    [Z].  A [Uint8Array] is a list of octets, each a [Z] in [0, 255].  A
    [throw] (or a rejected promise) is the [Throw] branch of [result]. *)

From Stdlib Require Import ZArith Lia Ascii.
From stdpp Require Import base option list strings gmap.
From Equations Require Import Equations.

#[local] Set Warnings "-register-all,-clear-no-such-hyp".
#[local] Open Scope Z_scope.

(** ** Exceptions *)

(** A JavaScript [Error]; only [message] is ever inspected by the code. *)
Record Error : Type := mkError { message : string }.

#[global] Instance Error_eq_dec : EqDecision Error.
Proof. solve_decision. Defined.

Inductive result (A : Type) : Type :=
| Ok (a : A)
| Throw (e : Error).
Arguments Ok {A} a.
Arguments Throw {A} e.

#[global] Instance result_ret : MRet result := fun A a => Ok a.

#[global] Instance result_bind : MBind result := fun A B k r =>
  match r with
  | Ok a => k a
  | Throw e => Throw e
  end.

Definition is_Ok {A : Type} (r : result A) : Prop := exists a, r = Ok a.
Definition is_Throw {A : Type} (r : result A) : Prop := exists e, r = Throw e.

Definition bytes : Type := list Z.

(** ** The [varint] package *)

Module Varint.

Definition N1 : Z := 2 ^ 7.
Definition N2 : Z := 2 ^ 14.
Definition N3 : Z := 2 ^ 21.
Definition N4 : Z := 2 ^ 28.
Definition N5 : Z := 2 ^ 35.
Definition N6 : Z := 2 ^ 42.
Definition N7 : Z := 2 ^ 49.
Definition N8 : Z := 2 ^ 56.
Definition N9 : Z := 2 ^ 63.

(** [varint.encodingLength(value)]: a chain of comparisons against the
    powers of 128. *)
Definition encodingLength (value : Z) : Z :=
  if value <? N1 then 1
  else if value <? N2 then 2
  else if value <? N3 then 3
  else if value <? N4 then 4
  else if value <? N5 then 5
  else if value <? N6 then 6
  else if value <? N7 then 7
  else if value <? N8 then 8
  else if value <? N9 then 9
  else 10.

Definition MSB : Z := 128.

(** [varint.encode(num)]: while more than seven bits remain, emit the low
    bits with the continuation bit set and drop seven bits; then emit the
    rest.  (The package runs this as two loops, one dividing by 128 for
    [num >= 2^31] and one shifting for smaller values; on non-negative
    integers both take the same step.) *)
Equations encode (num : Z) : bytes by wf (Z.to_nat num) lt :=
  encode num with Z_lt_dec num MSB := {
    | left _ => [num]
    | right _ => Z.lor (Z.land num 255) MSB :: encode (num / 128)
  }.
Next Obligation.
  unfold MSB in *.
  assert (num / 128 < num) by (apply Z.div_lt; lia).
  assert (0 <= num / 128) by (apply Z.div_pos; lia).
  lia.
Qed.

End Varint.

(** ** Strings *)

Module Str.

(** [s.split(sep)] for a one-character separator: the pieces between the
    occurrences of [sep]; never empty. *)
Fixpoint split (sep : Ascii.ascii) (s : string) : list string :=
  match s with
  | EmptyString => [EmptyString]
  | String c s' =>
      if Ascii.eqb c sep then EmptyString :: split sep s'
      else
        match split sep s' with
        | piece :: pieces => String c piece :: pieces
        | [] => [String c EmptyString]
        end
  end.

(** [parts.join(sep)] *)
Fixpoint join (sep : string) (parts : list string) : string :=
  match parts with
  | [] => EmptyString
  | [p] => p
  | p :: rest => p +:+ sep +:+ join sep rest
  end.

(** [s.startsWith(p)] *)
Definition startsWith (s p : string) : bool := String.prefix p s.

(** [s.includes(c)] for a one-character [c] *)
Fixpoint includes (s : string) (c : Ascii.ascii) : bool :=
  match s with
  | EmptyString => false
  | String a s' => Ascii.eqb a c || includes s' c
  end.

End Str.

(** ** multiformats: multihash digests and links (CIDs) *)

Record MultihashDigest : Type := mkDigest {
  digest_code : Z;
  digest_size : Z;
  digest_digest : bytes;
  digest_bytes : bytes
}.

#[global] Instance MultihashDigest_eq_dec : EqDecision MultihashDigest.
Proof. solve_decision. Defined.

Module Digest.

(** [Digest.create(code, digest)] *)
Definition create (code : Z) (digest : bytes) : MultihashDigest :=
  let size := Z.of_nat (length digest) in
  {| digest_code := code;
     digest_size := size;
     digest_digest := digest;
     digest_bytes := Varint.encode code ++ Varint.encode size ++ digest |}.

End Digest.

Record Link : Type := mkLink {
  cid_version : Z;
  cid_code : Z;
  cid_multihash : MultihashDigest;
  cid_bytes : bytes
}.

#[global] Instance Link_eq_dec : EqDecision Link.
Proof. solve_decision. Defined.

Module Link.

Definition encodeCID (version code : Z) (multihash : bytes) : bytes :=
  Varint.encode version ++ Varint.encode code ++ multihash.

(** [Link.create(code, digest)]: a version 1 CID. *)
Definition create (code : Z) (digest : MultihashDigest) : Link :=
  {| cid_version := 1;
     cid_code := code;
     cid_multihash := digest;
     cid_bytes := encodeCID 1 code (digest_bytes digest) |}.

(** [cid.toV1()]; a version other than 0 and 1 throws (the one caller
    catches it, so the message is never seen). *)
Definition toV1 (cid : Link) : result Link :=
  if cid_version cid =? 0 then
    let mh := cid_multihash cid in
    Ok (create (cid_code cid) (Digest.create (digest_code mh) (digest_digest mh)))
  else if cid_version cid =? 1 then Ok cid
  else Throw (mkError "Can not convert CID version to version 1").

End Link.

(** An IPLD block: what [invocation.attach] takes and what a CAR reader
    yields. *)
Record Block : Type := mkBlock {
  block_cid : Link;
  block_bytes : bytes
}.

#[global] Instance Block_eq_dec : EqDecision Block.
Proof. solve_decision. Defined.

(** The services of [multiformats] and [uint8arrays] that the code calls
    and whose results it only passes on or tests for failure. *)
Class Multiformats : Type := {
  (** [sha256.digest(bytes)] *)
  sha256_digest : bytes -> MultihashDigest;
  (** [Link.parse(source)]; throws on anything that is not a CID string *)
  Link_parse : string -> result Link;
  (** [`${link}`] *)
  Link_toString : Link -> string;
  (** [base58btc.encode(bytes)] *)
  base58btc_encode : bytes -> string;
  (** [fromString(s, 'base32')] *)
  fromString_base32 : string -> result bytes;
  (** [Digest.decode(bytes)] *)
  Digest_decode : bytes -> result MultihashDigest
}.

(** [equals(a, b)] of [multiformats/bytes] *)
Definition bytes_equals (a b : bytes) : bool := bool_decide (a = b).

(** ** IPLD values and capabilities *)

(** What a capability's [nb] can hold once decoded: the IPLD data model.
    An object is a finite map from property names. *)
Inductive Value : Type :=
| VNull
| VBool (b : bool)
| VNum (n : Z)
| VStr (s : string)
| VBytes (b : bytes)
| VLink (l : Link)
| VList (l : list Value)
| VMap (m : gmap string Value).

#[global] Instance Value_eq_dec : EqDecision Value.
Proof.
  refine (fix go (v1 v2 : Value) {struct v1} : Decision (v1 = v2) :=
    let _ : EqDecision Value := @go in
    match v1, v2 with
    | VNull, VNull => left _
    | VBool a, VBool b => cast_if (decide (a = b))
    | VNum a, VNum b => cast_if (decide (a = b))
    | VStr a, VStr b => cast_if (decide (a = b))
    | VBytes a, VBytes b => cast_if (decide (a = b))
    | VLink a, VLink b => cast_if (decide (a = b))
    | VList a, VList b => cast_if (decide (a = b))
    | VMap a, VMap b => cast_if (decide (a = b))
    | _, _ => right _
    end); abstract congruence.
Defined.

Record Capability : Type := mkCapability {
  can : string;
  with_ : string;
  nb : option Value   (* [None] is [undefined] *)
}.

#[global] Instance Capability_eq_dec : EqDecision Capability.
Proof. solve_decision. Defined.

(** [cap.nb[name]], [None] when [nb] is no object or has no such property. *)
Definition nb_field (name : string) (cap : Capability) : option Value :=
  match nb cap with
  | Some (VMap m) => m !! name
  | _ => None
  end.

(** Modelled from the spec: the discriminator strings of the five claim
    kinds, [Assert.location.can] and so on of [capability/assert.js], which
    section 6 lists as [assert/location], [assert/partition],
    [assert/inclusion], [assert/relation] and [assert/equals]. *)
Module Assert.
Definition location_can : string := "assert/location".
Definition partition_can : string := "assert/partition".
Definition inclusion_can : string := "assert/inclusion".
Definition relation_can : string := "assert/relation".
Definition equals_can : string := "assert/equals".
End Assert.

(** ** ucanto: signers, invocations and their archives *)

Record Signer : Type := mkSigner { did : string }.

(** An issued invocation before it is signed. *)
Record Invocation : Type := mkInvocation {
  issuer : Signer;
  audience : Signer;
  capabilities : list Capability;
  expiration : option Z;
  attachedBlocks : list Block
}.

(** The view of a signed invocation (a delegation): its root block, and what
    the root block says. *)
Record Delegation : Type := mkDelegation {
  root : Block;
  delegation_capabilities : list Capability;
  delegation_expiration : Z;
  delegation_blocks : list Block
}.

#[global] Instance Delegation_eq_dec : EqDecision Delegation.
Proof. solve_decision. Defined.

(** [view.cid] *)
Definition delegation_cid (d : Delegation) : Link := block_cid (root d).

Class Ucanto : Type := {
  (** signing and encoding the root block of an invocation *)
  ucan_issue : Invocation -> Block;
  (** the expiration ucanto gives an invocation that names none *)
  ucan_default_expiration : Z;
  (** [view.archive()]: a result, [Throw] standing for [{ error }] *)
  archive : Delegation -> result bytes;
  (** [Delegation.extract(bytes)]: a result, [Throw] standing for [{ error }] *)
  extract : bytes -> result Delegation
}.

(** What ucanto promises of its archives: extracting one gives back the
    delegation that was archived. *)
Class UcantoArchive `{Ucanto} : Prop := {
  extract_archive : forall d b, archive d = Ok b -> extract b = Ok d
}.

(** Modelled from the spec: [Assert.<kind>.invoke] of [capability/assert.js],
    which section 4.3 describes: an invocation with the given issuer and
    audience, one capability of the kind over [with] carrying the named
    parameters, and the given expiration; nothing attached yet. *)
Definition invoke (kind_can : string) (issuer audience : Signer) (with_ : string)
    (nb : Value) (expiration : option Z) : Invocation :=
  {| issuer := issuer;
     audience := audience;
     capabilities := [ {| can := kind_can; with_ := with_; nb := Some nb |} ];
     expiration := expiration;
     attachedBlocks := [] |}.

(** [invocation.attach(block)] *)
Definition attach (invocation : Invocation) (block : Block) : Invocation :=
  {| issuer := issuer invocation;
     audience := audience invocation;
     capabilities := capabilities invocation;
     expiration := expiration invocation;
     attachedBlocks := attachedBlocks invocation ++ [block] |}.

(** [invocation.buildIPLDView()] *)
Definition buildIPLDView `{Ucanto} (invocation : Invocation) : Delegation :=
  {| root := ucan_issue invocation;
     delegation_capabilities := capabilities invocation;
     delegation_expiration := default ucan_default_expiration (expiration invocation);
     delegation_blocks := attachedBlocks invocation |}.

(** ** The server's claim record ([server/api.ts], [Claim]) *)

Record Claim : Type := mkClaim {
  claim : Link;
  claim_bytes : bytes;
  claim_content : MultihashDigest;
  claim_expiration : Z;
  (** [value]: the capability ([block-index.js] adds it to the record) *)
  value : option Capability
}.

(** ** [block-index.js] *)

Module BlockIndex.

Definition CAR_CODE : Z := 0x0202.
Definition LIMIT : Z := 10.

(** The [QueryCommand] sent to the position index. *)
Record QueryCommand : Type := mkQueryCommand {
  TableName : string;
  Limit : Z;
  blockmultihash_EQ : string;
  AttributesToGet : list string
}.

(** One record of the position index, after [unmarshall]. *)
Record Record_ : Type := mkRecord {
  carpath : string;
  record_offset : Z;
  record_length : Z
}.

Record QueryOutput : Type := mkQueryOutput {
  Items : option (list Record_)   (* [None] is [undefined] *)
}.

(** A normalized candidate.  [bucket] is [undefined] ([None]) when the
    path has no ['/']. *)
Record Item : Type := mkItem {
  region : option string;
  bucket : option string;
  key : string;
  offset : Z;
  length : Z
}.

(** What the cardex index writer and the URL parser do. *)
Class Platform : Type := {
  (** the bytes a [MultihashIndexSortedWriter] emits for the entries added *)
  MultihashIndexSorted_encode : list (Link * Z) -> bytes;
  (** [MultihashIndexSortedWriter.codec] *)
  MultihashIndexSorted_codec : Z;
  (** [new URL(s).toString()]; the constructor throws on an invalid URL *)
  URL_toString : string -> result string
}.

(** The fetcher object.  [dynamoClient] stands for
    [retry(() => this.dynamoClient.send(command), ...)]: the outcome of the
    query once p-retry has given up or succeeded. *)
Record BlockIndexClaimFetcher : Type := mkFetcher {
  dynamoClient : QueryCommand -> result QueryOutput;
  tableName : string;
  signer : Signer
}.

Section Fetcher.
Context `{MF : Multiformats} `{UC : Ucanto} `{PF : Platform}.

(** [buildClaim] *)
Definition buildClaim (content : Link) (invocation : Invocation) : result Claim :=
  let ipldView := buildIPLDView invocation in
  match archive ipldView with
  | Throw _ => Throw (mkError "failed to archive invocation")
  | Ok archive_ok =>
      Ok {| claim := delegation_cid ipldView;
            claim_bytes := archive_ok;
            claim_content := cid_multihash content;
            claim_expiration := delegation_expiration ipldView;
            value := head (capabilities invocation) |}
  end.

(** [encodeIndex] *)
Definition encodeIndex (content : Link) (offset : Z) : Block :=
  let bytes := MultihashIndexSorted_encode [(content, offset)] in
  let digest := sha256_digest bytes in
  {| block_cid := Link.create MultihashIndexSorted_codec digest;
     block_bytes := bytes |}.

(** The [nb] of the location claim. *)
Definition locationNb (content : Link) (location : list string) (offset length : Z) : Value :=
  VMap (<["content" := VLink content]>
       (<["location" := VList (VStr <$> location)]>
       (<["range" := VMap (<["offset" := VNum offset]> (<["length" := VNum length]> ∅))]> ∅))).

(** The invocation [buildLocationClaim] hands to [buildClaim]. *)
Definition locationInvocation (signer : Signer) (content : Link)
    (location : list string) (offset length : Z) (expiration : option Z) : Invocation :=
  invoke Assert.location_can signer signer (did signer)
    (locationNb content location offset length) expiration.

(** [buildLocationClaim] *)
Definition buildLocationClaim (signer : Signer) (content : Link)
    (location : list string) (offset length : Z) (expiration : option Z) : result Claim :=
  buildClaim content (locationInvocation signer content location offset length expiration).

(** [carOffset] of [buildRelationClaim] *)
Definition carOffset (content : Link) (offset length : Z) : Z :=
  offset - (Varint.encodingLength (Z.of_nat (List.length (cid_bytes content)) + length)
            + Z.of_nat (List.length (cid_bytes content))).

(** The [nb] of the relation claim. *)
Definition relationNb (content part : Link) (index : Block) : Value :=
  VMap (<["content" := VLink content]>
       (<["children" := VList []]>
       (<["parts" := VList [
            VMap (<["content" := VLink part]>
                 (<["includes" := VMap (<["content" := VLink (block_cid index)]> ∅)]> ∅)) ]]> ∅))).

(** The invocation [buildRelationClaim] hands to [buildClaim]: the
    relation capability with the index attached. *)
Definition relationInvocation (signer : Signer) (content part : Link)
    (offset length : Z) (expiration : option Z) : Invocation :=
  let index := encodeIndex content (carOffset content offset length) in
  let invocation :=
    invoke Assert.relation_can signer signer (did signer)
      (relationNb content part index) expiration in
  attach invocation index.

(** [buildRelationClaim] *)
Definition buildRelationClaim (signer : Signer) (content part : Link)
    (offset length : Z) (expiration : option Z) : result Claim :=
  buildClaim content (relationInvocation signer content part offset length expiration).

(** The outer [try] of [bucketKeyToPartCID]: recent buckets encode the
    CAR CID in the filename. *)
Definition partOfCID (hash : string) : result Link :=
  parsed ← Link_parse hash;
  cid ← Link.toV1 parsed;
  if cid_code cid =? CAR_CODE then Ok cid
  else Throw (mkError "not a CAR CID").

(** The inner [try]: older buckets base32 encode a CAR multihash. *)
Definition partOfMultihash (hash : string) : result Link :=
  digestBytes ← fromString_base32 hash;
  digest ← Digest_decode digestBytes;
  Ok (Link.create CAR_CODE digest).

(** The [hash] of [bucketKeyToPartCID]: the filename, that is the last
    segment of the key, up to its first dot.  Both [split]s give a
    non-empty array, so [at(-1)] and the first element are defined. *)
Definition keyHash (key : string) : string :=
  let filename := default "undefined" (last (Str.split "/"%char key)) in
  default "undefined" (head (Str.split "."%char filename)).

(** [bucketKeyToPartCID]; [None] is [undefined]. *)
Definition bucketKeyToPartCID (key : string) : option Link :=
  let hash := keyHash key in
  match partOfCID hash with
  | Ok cid => Some cid
  | Throw _ =>
      match partOfMultihash hash with
      | Ok cid => Some cid
      | Throw _ => None
      end
  end.

(** The callback of [.map] in [get]: one record, normalized. *)
Definition normalize (item : Record_) : Item :=
  let parts := Str.split "/"%char (carpath item) in
  {| region := head parts;
     bucket := head (tail parts);
     key := Str.join "/" (tail (tail parts));
     offset := record_offset item;
     length := record_length item |}.

(** [a ?? b] *)
Definition nullish {A : Type} (a b : option A) : option A :=
  match a with
  | Some x => Some x
  | None => b
  end.

Definition inBucket (name : string) (item : Item) : bool :=
  bool_decide (bucket item = Some name).

Definition inBucketRaw (name : string) (item : Item) : bool :=
  inBucket name item && Str.startsWith (key item) "raw".

(** The location selection of [get]: the four assignments to [item]. *)
Definition selectItem (items : list Item) : option Item :=
  let item := find (inBucket "carpark-prod-0") items in
  let item := nullish item (find (inBucketRaw "dotstorage-prod-1") items) in
  let item := nullish item (find (inBucketRaw "dotstorage-prod-0") items) in
  nullish item (head items).

(** [`${item.bucket}`] *)
Definition bucketString (item : Item) : string :=
  default "undefined" (bucket item).

(** [Math.ceil((now / 1000) + (60 * 60))] for [now] in milliseconds: the
    quotient rounded up, an hour later. *)
Definition expiresAt (now : Z) : Z :=
  - ((- now) / 1000) + 60 * 60.

Definition queryCommand (self : BlockIndexClaimFetcher) (content : Link) : QueryCommand :=
  {| TableName := tableName self;
     Limit := LIMIT;
     blockmultihash_EQ := base58btc_encode (digest_bytes (cid_multihash content));
     AttributesToGet := ["carpath"; "length"; "offset"] |}.

(** [BlockIndexClaimFetcher.get]; [now] is what [Date.now()] returns.
    [Promise.all] gives the claims in the order of the array, and
    rejects when one of them does. *)
Definition get (self : BlockIndexClaimFetcher) (now : Z) (content : Link)
    : result (list Claim) :=
  result ← dynamoClient self (queryCommand self content);
  let items := normalize <$> default [] (Items result) in
  match selectItem items with
  | None => Ok []
  | Some item =>
      let part := bucketKeyToPartCID (key item) in
      location ← URL_toString
        ("https://" +:+ bucketString item +:+ ".s3.amazonaws.com/" +:+ key item);
      let expiration := expiresAt now in
      locationClaim ←
        buildLocationClaim (signer self) content [location]
          (offset item) (length item) (Some expiration);
      relationClaims ←
        match part with
        | Some part =>
            relationClaim ←
              buildRelationClaim (signer self) content part
                (offset item) (length item) (Some expiration);
            Ok [relationClaim]
        | None => Ok []
        end;
      Ok (locationClaim :: relationClaims)
  end.

(** *** Vocabulary for the properties of the resolver *)

(** [item] is the first element of [items] that satisfies [P]. *)
Definition first_match (P : Item -> Prop) (items : list Item) (item : Item) : Prop :=
  exists before after,
    items = before ++ item :: after /\ P item /\ Forall (fun i => ~ P i) before.

(** A candidate in the current production bucket. *)
Definition current (item : Item) : Prop :=
  bucket item = Some "carpark-prod-0".

(** A candidate in the legacy bucket [name] whose key starts with [raw]. *)
Definition legacy_raw (name : string) (item : Item) : Prop :=
  bucket item = Some name /\ exists rest, key item = "raw" +:+ rest.



End Fetcher.

End BlockIndex.

(** ** [client/index.js] *)

Module Client.

(** A claim as the client sees it ([client/api.ts]): the properties of the
    capability's [nb] with [type] set, the delegation [export] iterates,
    and the bytes [archive] returns. *)
Record Claim : Type := mkClaim {
  props : gmap string Value;
  export_ : Delegation;
  archive_ : bytes
}.

(** [claim.type] *)
Definition type (c : Claim) : option Value := props c !! "type".

(** [!v] negated: whether a value is truthy. *)
Definition truthy (v : option Value) : bool :=
  match v with
  | None | Some VNull => false
  | Some (VBool b) => b
  | Some (VNum n) => negb (n =? 0)
  | Some (VStr s) => negb (bool_decide (s = ""))
  | Some _ => true
  end.

(** [typeof v] of a defined value *)
Definition typeof (v : Value) : string :=
  match v with
  | VBool _ => "boolean"
  | VNum _ => "number"
  | VStr _ => "string"
  | VNull | VBytes _ | VLink _ | VList _ | VMap _ => "object"
  end.

(** ['content' in v] for an object [v]: byte arrays, links and lists have
    no such property. *)
Definition has_content (v : Value) : bool :=
  match v with
  | VMap m => bool_decide (is_Some (m !! "content"))
  | _ => false
  end.

(** [claimType] *)
Definition claimType (can : string) : string :=
  if bool_decide (can = Assert.location_can) then Assert.location_can
  else if bool_decide (can = Assert.partition_can) then Assert.partition_can
  else if bool_decide (can = Assert.inclusion_can) then Assert.inclusion_can
  else if bool_decide (can = Assert.relation_can) then Assert.relation_can
  else if bool_decide (can = Assert.equals_can) then Assert.equals_can
  else "unknown".

(** [{ ...nb, type, export, archive }]: the data properties of the object
    literal; [export] and [archive] are functions and replace any
    property of [nb] with those names. *)
Definition spread (nb : Value) (type : string) : gmap string Value :=
  let own := match nb with VMap m => m | _ => ∅ end in
  <["type" := VStr type]> (delete "archive" (delete "export" own)).

Record FetchOptions : Type := mkFetchOptions {
  walk : option (list string);
  serviceURL : option string
}.

(** The URL [fetch] asks for. *)
Record Request : Type := mkRequest {
  request_base : string;
  request_path : string;
  request_walk : option string
}.

(** How the piped stream fails: with which error, and when.  The sink's
    [write] is asynchronous (it awaits the digest and the decoding), so
    the error of the stream can reach the pipe while the write of the
    block it delivered last is still in flight. *)
Record Failure : Type := mkFailure {
  reason : Error;
  during_write : bool
}.

(** What [res.body.pipeThrough(new CARReaderStream())] hands to its sink:
    the blocks the pipe passes to [write], in order, one write at a time
    (the sink keeps the default high water mark of one), and then either
    the end of the stream or its failure.  Blocks the reader had queued
    when it failed are dropped by the stream and are not among them. *)
Record BlockStream : Type := mkBlockStream {
  blocks : list Block;
  failure : option Failure
}.

Record Response : Type := mkResponse {
  response_ok : bool;
  status : string;   (* the number, as a template literal prints it *)
  text : string;
  body : option BlockStream   (* [None] is a missing body *)
}.

Definition defaultServiceURL : string := "https://claims.web3.storage".

Section Reader.
Context `{MF : Multiformats} `{UC : Ucanto}.
(** [globalThis.fetch] *)
Variable globalThis_fetch : Request -> result Response.

(** [decode] *)
Definition decode (bytes : bytes) : result Claim :=
  match extract bytes with
  | Throw _ => Throw (mkError "failed to decode claim")
  | Ok delegation =>
      match head (delegation_capabilities delegation) with
      | None => Throw (mkError "Cannot read properties of undefined (reading 'nb')")
      | Some cap =>
          if negb (truthy (nb cap))
             || negb (bool_decide (typeof (default VNull (nb cap)) = "object"))
             || negb (has_content (default VNull (nb cap)))
          then Throw (mkError "invalid claim")
          else Ok {| props := spread (default VNull (nb cap)) (claimType (can cap));
                     export_ := delegation;
                     archive_ := bytes |}
      end
  end.

(** [fetch] *)
Definition fetch (content : Link) (options : option FetchOptions) : result Response :=
  globalThis_fetch
    {| request_base := default defaultServiceURL (options ≫= serviceURL);
       request_path := "/claims/" +:+ Link_toString content;
       request_walk := Str.join "," <$> (options ≫= walk) |}.

(** The sink's [write(block)]: the claims array after the call, or the
    exception thrown, which leaves the array as it was. *)
Definition write (block : Block) (claims : list Claim) : result (list Claim) :=
  let digest := sha256_digest (block_bytes block) in
  if negb (bytes_equals (digest_bytes (cid_multihash (block_cid block))) (digest_bytes digest))
  then Throw (mkError ("hash verification failed: " +:+ Link_toString (block_cid block)))
  else
    claim ← decode (block_bytes block);
    Ok (claims ++ [claim]).

(** The error a pipe rejects with when [write] threw [err]: the pipe shuts
    down for the first error it sees.  When the stream had already failed
    while this write, the last, was in flight, the pipe is shutting down
    for the stream's error: it waits for the write to settle and rejects
    with the stream's error.  Otherwise it sees the error of [write]
    first, cancels the stream and rejects with [err]. *)
Definition rejection (rest : list Block) (failure : option Failure) (err : Error) : Error :=
  match rest, failure with
  | [], Some f => if during_write f then reason f else err
  | _, _ => err
  end.

(** [pipeTo]: every block goes to [write] until one call throws or the
    stream ends; the claims array and the rejection, if any. *)
Fixpoint pipeTo (blocks : list Block) (failure : option Failure) (claims : list Claim)
    : list Claim * option Error :=
  match blocks with
  | [] => (claims, reason <$> failure)
  | block :: rest =>
      match write block claims with
      | Ok claims' => pipeTo rest failure claims'
      | Throw err => (claims, Some (rejection rest failure err))
      end
  end.

(** [read] *)
Definition read (content : Link) (options : option FetchOptions) : result (list Claim) :=
  res ← fetch content options;
  if negb (response_ok res)
  then Throw (mkError ("unexpected service status: " +:+ status res))
  else
    match body res with
    | None => Throw (mkError "missing response body")
    | Some stream =>
        match pipeTo (blocks stream) (failure stream) [] with
        | (claims, Some err) =>
            if (List.length claims =? 0)%nat
               && bool_decide (message err = "unexpected end of data")
            then Ok claims
            else Throw err
        | (claims, None) => Ok claims
        end
    end.

(** *** Vocabulary for the properties of the reader *)

(** The multihash of the block's CID is the SHA-256 digest of its bytes. *)
Definition verified (block : Block) : Prop :=
  digest_bytes (cid_multihash (block_cid block))
  = digest_bytes (sha256_digest (block_bytes block)).

#[global] Instance verified_dec (block : Block) : Decision (verified block).
Proof. unfold verified. apply _. Defined.

(** The message of the error a CAR reader throws when the stream ends in
    the middle of a block. *)
Definition END_OF_DATA : string := "unexpected end of data".

(** What the [catch] of [read] makes of the rejection [err] of the pipe
    with [claims] produced. *)
Definition caught (claims : list Claim) (err : Error) : result (list Claim) :=
  if (List.length claims =? 0)%nat && bool_decide (message err = END_OF_DATA)
  then Ok claims
  else Throw err.

(** The block passes verification and decodes to [claim]. *)
Definition accepted (block : Block) (claim : Claim) : Prop :=
  verified block /\ decode (block_bytes block) = Ok claim.

End Reader.

End Client.

(** ** From the resolver to the client *)

(** What a record of the resolver looks like to the client that decoded
    [c] from it: the same bytes, the same claim identifier, the subject as
    [content] and the kind of the capability as [type]. *)
Definition served (subject : Link) (rec : Claim) (c : Client.Claim) : Prop :=
  Client.archive_ c = claim_bytes rec /\
  delegation_cid (Client.export_ c) = claim rec /\
  Client.props c !! "content" = Some (VLink subject) /\
  Client.type c = (fun cap => VStr (can cap)) <$> value rec.

(** ** Sample data

    Small stand-ins for the outside world, to run the definitions on: a
    hash that pads or cuts its input to thirty-two octets, a parser that
    knows a handful of names, and an archive format that numbers the
    delegations of a fixed list. *)

Module Sample.
Import BlockIndex.

Definition hash32 (b : bytes) : bytes := take 32 (b ++ replicate 32 0).

(** A dag-cbor CID of 36 octets. *)
Definition subject : Link := Link.create 0x71 (Digest.create 0x12 (replicate 32 7)).
Definition other : Link := Link.create 0x71 (Digest.create 0x13 (replicate 64 8)).
Definition carLink : Link := Link.create 0x0202 (Digest.create 0x12 (replicate 32 9)).
Definition rawLink : Link := Link.create 0x55 (Digest.create 0x12 (replicate 32 9)).

Definition digest_decode (b : bytes) : result MultihashDigest :=
  match b with
  | code :: size :: digest =>
      if bool_decide (Z.of_nat (List.length digest) = size)
      then Ok (mkDigest code size digest b)
      else Throw (mkError "Incorrect length")
  | _ => Throw (mkError "Could not decode varint")
  end.

#[local] Instance MF : Multiformats := {|
  sha256_digest b := Digest.create 0x12 (hash32 b);
  Link_parse s :=
    if bool_decide (s = "bagbaiera") then Ok carLink
    else if bool_decide (s = "bafkrei") then Ok rawLink
    else Throw (mkError "To parse non base32, base36 or base58btc encoded CID multibase decoder must be provided");
  Link_toString l := "bafy";
  base58btc_encode b := "z";
  fromString_base32 s :=
    if bool_decide (s = "ciqa") then Ok [0x12; 2; 5; 6]
    else Throw (mkError "Non-base32 character");
  Digest_decode := digest_decode
|}.

#[local] Instance PF : Platform := {|
  MultihashIndexSorted_encode entries :=
    flat_map (fun e => digest_digest (cid_multihash (fst e)) ++ [snd e]) entries;
  MultihashIndexSorted_codec := 0x0401;
  URL_toString s := Ok s
|}.

Definition issue (invocation : Invocation) : Block :=
  let b := [Z.of_nat (List.length (capabilities invocation));
            Z.of_nat (List.length (attachedBlocks invocation))] in
  {| block_cid := Link.create 0x71 (Digest.create 0x12 (hash32 b)); block_bytes := b |}.

(** An archive is the position of the delegation in [known]. *)
Definition UC (known : list Delegation) : Ucanto := {|
  ucan_issue := issue;
  ucan_default_expiration := 30;
  archive d :=
    match list_find (fun k => k = d) known with
    | Some (i, _) => Ok [Z.of_nat i]
    | None => Throw (mkError "unknown delegation")
    end;
  extract b :=
    match b with
    | [i] =>
        match known !! Z.to_nat i with
        | Some d => Ok d
        | None => Throw (mkError "no such archive")
        end
    | _ => Throw (mkError "no such archive")
    end
|}.

Definition service : Signer := {| did := "did:web:claims.web3.storage" |}.
Definition now : Z := 1700000000123.

Definition locationView : Delegation :=
  @buildIPLDView (UC [])
    (locationInvocation service subject
       ["https://carpark-prod-0.s3.amazonaws.com/raw/bagbaiera.car"] 100 50
       (Some (expiresAt now))).

Definition relationView : Delegation :=
  @buildIPLDView (UC [])
    (relationInvocation service subject carLink 100 50 (Some (expiresAt now))).

Definition equalsInvocation : Invocation :=
  invoke Assert.equals_can service service (did service)
    (VMap (<["content" := VLink subject]> (<["equals" := VLink other]> ∅))) None.

Definition equalsView : Delegation := @buildIPLDView (UC []) equalsInvocation.

(** An equals capability that names no [equals]. *)
Definition lameEqualsView : Delegation :=
  @buildIPLDView (UC [])
    (invoke Assert.equals_can service service (did service)
       (VMap (<["content" := VLink subject]> ∅)) None).

(** A capability of a kind this library does not know. *)
Definition futureView : Delegation :=
  @buildIPLDView (UC [])
    (invoke "assert/future" service service (did service)
       (VMap (<["content" := VLink subject]> (<["note" := VStr "kept"]> ∅))) None).

(** The relation claim of a value of 128 octets at offset 300. *)
Definition longRelationView : Delegation :=
  @buildIPLDView (UC [])
    (relationInvocation service subject carLink 300 128 (Some (expiresAt now))).

Definition known : list Delegation :=
  [locationView; relationView; equalsView; lameEqualsView; futureView;
   longRelationView].

#[local] Instance ucanto : Ucanto := UC known.

(** The position index holds a legacy and a current record. *)
Definition fetcher : BlockIndexClaimFetcher := {|
  dynamoClient _ :=
    Ok {| Items := Some [
      {| carpath := "us-east-2/dotstorage-prod-1/raw/bafy/315318734258452893/ciqa.car";
         record_offset := 3000; record_length := 50 |};
      {| carpath := "us-west-2/carpark-prod-0/raw/bagbaiera.car";
         record_offset := 100; record_length := 50 |} ] |};
  tableName := "blocks-cars-position";
  signer := service
|}.

(** A position index that knows nothing of the subject. *)
Definition emptyFetcher : BlockIndexClaimFetcher := {|
  dynamoClient _ := Ok {| Items := Some [] |};
  tableName := "blocks-cars-position";
  signer := service
|}.

(** The claims the resolver derives from [fetcher] at [now]. *)
Definition locationClaim : Claim := {|
  claim := delegation_cid locationView;
  claim_bytes := [0];
  claim_content := cid_multihash subject;
  claim_expiration := expiresAt now;
  value := head (delegation_capabilities locationView)
|}.

Definition relationClaim : Claim := {|
  claim := delegation_cid relationView;
  claim_bytes := [1];
  claim_content := cid_multihash subject;
  claim_expiration := expiresAt now;
  value := head (delegation_capabilities relationView)
|}.

Definition equalsClaim : Claim := {|
  claim := delegation_cid equalsView;
  claim_bytes := [2];
  claim_content := cid_multihash subject;
  claim_expiration := 30;
  value := head (delegation_capabilities equalsView)
|}.

(** A position index that holds the current record alone. *)
Definition currentFetcher : BlockIndexClaimFetcher := {|
  dynamoClient _ :=
    Ok {| Items := Some [
      {| carpath := "us-west-2/carpark-prod-0/raw/bagbaiera.car";
         record_offset := 100; record_length := 50 |} ] |};
  tableName := "blocks-cars-position";
  signer := service
|}.

(** A position index that cannot be reached. *)
Definition downFetcher : BlockIndexClaimFetcher := {|
  dynamoClient _ := Throw (mkError "ProvisionedThroughputExceededException");
  tableName := "blocks-cars-position";
  signer := service
|}.

(** An archiver that knows the location claim and not the relation claim. *)
Definition halfUcanto : Ucanto := UC [locationView].

(** A block whose CID is the hash of its bytes. *)
Definition hashed (b : bytes) : Block :=
  {| block_cid := Link.create 0x0202 (sha256_digest b); block_bytes := b |}.

(** A block whose CID is the hash of other bytes. *)
Definition mislabelled (b : bytes) : Block :=
  {| block_cid := Link.create 0x0202 (sha256_digest (0 :: b)); block_bytes := b |}.

(** What the client makes of the archive of [equalsView]. *)
Definition equalsDecoded : Client.Claim := {|
  Client.props :=
    <["type" := VStr "assert/equals"]>
      (<["content" := VLink subject]> (<["equals" := VLink other]> ∅));
  Client.export_ := equalsView;
  Client.archive_ := [2]
|}.


(** One block, well hashed, that is no archive. *)
Definition undecodableStream : Client.BlockStream :=
  {| Client.blocks := [hashed [9]]; Client.failure := None |}.

(** A stream that breaks off before its first block. *)
Definition truncatedStream : Client.BlockStream :=
  {| Client.blocks := [];
     Client.failure := Some {| Client.reason := mkError Client.END_OF_DATA;
                               Client.during_write := false |} |}.

(** A stream that hands over one block, well hashed and no archive, and
    breaks off while that block is being written. *)
Definition overtakenStream : Client.BlockStream :=
  {| Client.blocks := [hashed [9]];
     Client.failure := Some {| Client.reason := mkError Client.END_OF_DATA;
                               Client.during_write := true |} |}.


(** A good block, then one that is no archive while the stream breaks
    off. *)
Definition lateOvertakenStream : Client.BlockStream :=
  {| Client.blocks := [hashed [2]; hashed [9]];
     Client.failure := Some {| Client.reason := mkError Client.END_OF_DATA;
                               Client.during_write := true |} |}.

Definition respond (stream : Client.BlockStream) (_ : Client.Request)
    : result Client.Response :=
  Ok {| Client.response_ok := true; Client.status := "200"; Client.text := "";
        Client.body := Some stream |}.

End Sample.

(** * Properties *)

(** ** Varints *)

Module VarintFacts.
Import Varint.

Lemma encode_last (num : Z) : num < 128 -> encode num = [num].
Proof.
  intros Hlt. rewrite encode_equation_1. unfold encode_clause_1, MSB.
  destruct (Z_lt_dec num 128); [reflexivity | lia].
Qed.

Lemma encode_more (num : Z) :
  128 <= num -> encode num = Z.lor (Z.land num 255) 128 :: encode (num / 128).
Proof.
  intros Hge. rewrite encode_equation_1. unfold encode_clause_1, MSB.
  destruct (Z_lt_dec num 128); [lia | reflexivity].
Qed.

(** A value of [k + 1] seven-bit groups takes [k + 1] octets. *)
Lemma length_encode (k : nat) : forall num,
  num < 128 ^ Z.of_nat (S k) ->
  (k <> 0%nat -> 128 ^ Z.of_nat k <= num) ->
  List.length (encode num) = S k.
Proof.
  induction k as [|k IH]; intros num Hhi Hlo.
  - rewrite encode_last; [reflexivity | exact Hhi].
  - assert (Hpow : 128 ^ Z.of_nat (S k) = 128 * 128 ^ Z.of_nat k)
      by (rewrite Nat2Z.inj_succ, Z.pow_succ_r; lia).
    assert (Hpow' : 128 ^ Z.of_nat (S (S k)) = 128 * 128 ^ Z.of_nat (S k))
      by (rewrite (Nat2Z.inj_succ (S k)), Z.pow_succ_r; lia).
    assert (Hpos : 0 < 128 ^ Z.of_nat k) by (apply Z.pow_pos_nonneg; lia).
    specialize (Hlo ltac:(discriminate)).
    rewrite encode_more by lia. cbn [List.length]. f_equal.
    apply IH.
    + apply Z.div_lt_upper_bound; lia.
    + intros _. apply Z.div_le_lower_bound; lia.
Qed.

(** [encodingLength] is the number of octets [encode] produces, for every
    value below [2^63]. *)
Lemma encodingLength_encode (value : Z) :
  0 <= value < 2 ^ 63 ->
  encodingLength value = Z.of_nat (List.length (encode value)).
Proof.
  intros [Hlo Hhi]. unfold encodingLength, N1, N2, N3, N4, N5, N6, N7, N8, N9.
  repeat match goal with
  | |- context [?a <? ?b] => destruct (Z.ltb_spec a b)
  end;
  repeat match goal with
  | H : context [2 ^ ?e] |- _ =>
      let p := eval vm_compute in (2 ^ e) in change (2 ^ e) with p in H
  end;
  match goal with
  | |- ?n = _ =>
      let k := eval vm_compute in (Z.to_nat (n - 1)) in
      let lo := eval vm_compute in (128 ^ Z.of_nat k) in
      let hi := eval vm_compute in (128 ^ Z.of_nat (S k)) in
      rewrite (length_encode k);
      [ reflexivity
      | change (128 ^ Z.of_nat (S k)) with hi; lia
      | intros Hk;
        first [ exfalso; apply Hk; reflexivity
              | change (128 ^ Z.of_nat k) with lo; lia ] ]
  end.
Qed.

Lemma encodingLength_1 (value : Z) : value < 128 -> encodingLength value = 1.
Proof.
  intros H. unfold encodingLength, N1.
  destruct (Z.ltb_spec value (2 ^ 7)); [reflexivity | lia].
Qed.

Lemma encodingLength_2 (value : Z) : 128 <= value < 16384 -> encodingLength value = 2.
Proof.
  intros H. unfold encodingLength, N1, N2.
  destruct (Z.ltb_spec value (2 ^ 7)); [lia |].
  destruct (Z.ltb_spec value (2 ^ 14)); [reflexivity | lia].
Qed.

Example encode_86 : encode 86 = [86].
Proof. reflexivity. Qed.

Example encode_164 : encode 164 = [164; 1].
Proof. reflexivity. Qed.

Example encode_300 : encode 300 = [172; 2].
Proof. reflexivity. Qed.

Example encodingLength_boundaries :
  encodingLength 0 = 1 /\ encodingLength 127 = 1 /\ encodingLength 128 = 2 /\
  encodingLength 16383 = 2 /\ encodingLength 16384 = 3.
Proof. repeat split. Qed.

End VarintFacts.

(** ** The result monad *)

Lemma bind_Ok_inv {A B : Type} (r : result A) (k : A -> result B) (b : B) :
  r ≫= k = Ok b -> exists a, r = Ok a /\ k a = Ok b.
Proof. destruct r as [a|e]; [eauto | discriminate]. Qed.

Lemma bind_Ok {A B : Type} (r : result A) (k : A -> result B) (a : A) :
  r = Ok a -> r ≫= k = k a.
Proof. intros ->. reflexivity. Qed.

Lemma bind_Throw {A B : Type} (r : result A) (k : A -> result B) (e : Error) :
  r = Throw e -> r ≫= k = Throw e.
Proof. intros ->. reflexivity. Qed.

(** ** Strings *)

Lemma split_nonempty (sep : ascii) (s : string) : Str.split sep s <> [].
Proof.
  destruct s as [|c s]; cbn; [discriminate |].
  destruct (Ascii.eqb c sep); [discriminate |].
  destruct (Str.split sep s); discriminate.
Qed.

Lemma app_String (a : ascii) (p s : string) :
  String a p +:+ s = String a (p +:+ s).
Proof. reflexivity. Qed.

(** Joining the pieces of a split gives the string back. *)
Lemma join_split (sep : ascii) (s : string) :
  Str.join (String sep EmptyString) (Str.split sep s) = s.
Proof.
  induction s as [|c s IH]; cbn [Str.split]; [reflexivity |].
  pose proof (split_nonempty sep s) as Hne.
  destruct (Str.split sep s) as [|piece pieces]; [contradiction |].
  destruct (Ascii.eqb c sep) eqn:Hc.
  - apply Ascii.eqb_eq in Hc as ->.
    change (Str.join (String sep EmptyString) (EmptyString :: piece :: pieces))
      with (String sep (Str.join (String sep EmptyString) (piece :: pieces))).
    rewrite IH. reflexivity.
  - destruct pieces as [|next pieces].
    + cbn in *. rewrite IH. reflexivity.
    + change (Str.join (String sep EmptyString) (String c piece :: next :: pieces))
        with (String c (Str.join (String sep EmptyString) (piece :: next :: pieces))).
      rewrite IH. reflexivity.
Qed.

Example split_carpath :
  Str.split "/" "us-west-2/carpark-prod-0/raw/bagbaiera.car"
  = ["us-west-2"; "carpark-prod-0"; "raw"; "bagbaiera.car"].
Proof. reflexivity. Qed.

Example split_no_separator : Str.split "/" "bagbaiera" = ["bagbaiera"].
Proof. reflexivity. Qed.

Example split_trailing_separator : Str.split "/" "raw/" = ["raw"; ""].
Proof. reflexivity. Qed.

Lemma prefix_app (p s : string) :
  String.prefix p s = true <-> exists rest, s = p +:+ rest.
Proof.
  revert s. induction p as [|a p IH]; intros s; cbn.
  - split; [intros _; exists s; reflexivity | intros _; destruct s; reflexivity].
  - destruct s as [|b s]; cbn.
    + split; [discriminate | intros [rest H]; rewrite app_String in H; discriminate].
    + destruct (Ascii.ascii_dec a b) as [->|Hne].
      * rewrite IH. split; intros [rest H]; exists rest;
          rewrite app_String in *; congruence.
      * split; [discriminate | intros [rest H]; rewrite app_String in H; congruence].
Qed.

(** ** The derived-claim resolver *)

Module BlockIndexFacts.
Import BlockIndex.

Section Builder.
Context `{MF : Multiformats} `{UC : Ucanto} `{PF : Platform}.

(** What [buildClaim] returns, when it returns. *)
Lemma buildClaim_Ok (subject : Link) (invocation : Invocation) (rec : Claim) :
  buildClaim subject invocation = Ok rec ->
  archive (buildIPLDView invocation) = Ok (claim_bytes rec) /\
  claim rec = delegation_cid (buildIPLDView invocation) /\
  claim_content rec = cid_multihash subject /\
  claim_expiration rec = delegation_expiration (buildIPLDView invocation) /\
  value rec = head (capabilities invocation).
Proof.
  unfold buildClaim. destruct (archive (buildIPLDView invocation)) as [b|e] eqn:Harch.
  - intros [= <-]. cbn. auto.
  - discriminate.
Qed.


(** C1. The offset that [buildRelationClaim] writes into the index it
    attaches is the record's offset less the framing of the block in its
    archive: the varint of the length of identifier and value, and the
    identifier.  The record's archive is that of an invocation whose only
    attachment is the index with the single entry for the subject at
    that offset.  [encodingLength] is the number of octets of the
    varint, which is one below 128 and two from 128 to 16383. *)
Theorem relation_index_offset (signer : Signer) (subject part : Link)
    (off len : Z) (expiration : option Z) (rec : Claim) :
  buildRelationClaim signer subject part off len expiration = Ok rec ->
  let idLen := Z.of_nat (List.length (cid_bytes subject)) in
  (exists view,
      archive view = Ok (claim_bytes rec) /\
      claim rec = delegation_cid view /\
      delegation_blocks view =
        [encodeIndex subject (off - (Varint.encodingLength (idLen + len) + idLen))]) /\
  (forall o, block_bytes (encodeIndex subject o)
             = MultihashIndexSorted_encode [(subject, o)]) /\
  (0 <= idLen + len < 2 ^ 63 ->
     Varint.encodingLength (idLen + len)
     = Z.of_nat (List.length (Varint.encode (idLen + len)))) /\
  (0 <= idLen + len < 128 ->
     carOffset subject off len = off - (1 + idLen)) /\
  (128 <= idLen + len < 16384 ->
     carOffset subject off len = off - (2 + idLen)).
Proof.
  intros Hrec idLen. apply buildClaim_Ok in Hrec as (Harch & Hcid & _).
  repeat split.
  - exists (buildIPLDView (relationInvocation signer subject part off len expiration)).
    repeat split; assumption || reflexivity.
  - apply VarintFacts.encodingLength_encode.
  - intros H. unfold carOffset. fold idLen.
    rewrite VarintFacts.encodingLength_1 by lia. reflexivity.
  - intros H. unfold carOffset. fold idLen.
    rewrite VarintFacts.encodingLength_2 by lia. reflexivity.
Qed.

End Builder.

(** The example of the specification: offset 100, length 50 and an
    identifier of 36 octets give [100 - (1 + 36)]; a value of 128 octets
    takes a varint of two. *)
Lemma relation_index_offset_witness :
  Z.of_nat (List.length (cid_bytes Sample.subject)) = 36 /\
  carOffset Sample.subject 100 50 = 100 - (1 + 36) /\
  carOffset Sample.subject 300 128 = 300 - (2 + 36).
Proof.
  pose proof (relation_index_offset (MF := Sample.MF) (UC := Sample.ucanto)
                (PF := Sample.PF) Sample.service Sample.subject Sample.carLink
                100 50 (Some (expiresAt Sample.now))
                {| claim := delegation_cid Sample.relationView;
                   claim_bytes := [1];
                   claim_content := cid_multihash Sample.subject;
                   claim_expiration := expiresAt Sample.now;
                   value := head (delegation_capabilities Sample.relationView) |}
                ltac:(vm_compute; reflexivity)) as (_ & _ & _ & Hone & _).
  pose proof (relation_index_offset (MF := Sample.MF) (UC := Sample.ucanto)
                (PF := Sample.PF) Sample.service Sample.subject Sample.carLink
                300 128 (Some (expiresAt Sample.now))
                {| claim := delegation_cid Sample.longRelationView;
                   claim_bytes := [5];
                   claim_content := cid_multihash Sample.subject;
                   claim_expiration := expiresAt Sample.now;
                   value := head (delegation_capabilities Sample.longRelationView) |}
                ltac:(vm_compute; reflexivity)) as (_ & _ & _ & _ & Htwo).
  split; [reflexivity |].
  split; [apply Hone | apply Htwo]; vm_compute; (split; [discriminate | reflexivity]).
Defined.

(** *** Location selection *)

Lemma inBucket_current (item : Item) :
  inBucket "carpark-prod-0" item = true <-> current item.
Proof. unfold inBucket, current. apply bool_decide_eq_true. Qed.

Lemma inBucketRaw_legacy_raw (name : string) (item : Item) :
  inBucketRaw name item = true <-> legacy_raw name item.
Proof.
  unfold inBucketRaw, inBucket, legacy_raw, Str.startsWith.
  rewrite andb_true_iff, bool_decide_eq_true, prefix_app. reflexivity.
Qed.

Example normalize_carpath :
  normalize {| carpath := "us-west-2/carpark-prod-0/raw/bagbaiera.car";
               record_offset := 100; record_length := 50 |}
  = {| region := Some "us-west-2"; bucket := Some "carpark-prod-0";
       key := "raw/bagbaiera.car"; offset := 100; length := 50 |}.
Proof. reflexivity. Qed.

Example normalize_no_bucket :
  normalize {| carpath := "orphan"; record_offset := 1; record_length := 2 |}
  = {| region := Some "orphan"; bucket := None; key := ""; offset := 1; length := 2 |}.
Proof. reflexivity. Qed.

Example keyHash_raw_key :
  keyHash "raw/bafy/315318734258452893/ciqa.car" = "ciqa".
Proof. reflexivity. Qed.

(** Without a current-bucket candidate the newer legacy bucket wins over
    the older, and a legacy candidate outside [raw] is passed over. *)
Example selectItem_legacy_order :
  key <$> selectItem (normalize <$> [
    {| carpath := "us-east-2/dotstorage-prod-1/complete/bafy.car";
       record_offset := 1; record_length := 1 |};
    {| carpath := "us-east-2/dotstorage-prod-0/raw/bafy/1/ciqa.car";
       record_offset := 2; record_length := 2 |};
    {| carpath := "us-east-2/dotstorage-prod-1/raw/bafy/1/ciqb.car";
       record_offset := 3; record_length := 3 |} ])
  = Some "raw/bafy/1/ciqb.car".
Proof. reflexivity. Qed.

Example selectItem_fallback :
  key <$> selectItem (normalize <$> [
    {| carpath := "us-east-2/dotstorage-prod-1/complete/bafy.car";
       record_offset := 1; record_length := 1 |};
    {| carpath := "us-east-2/elsewhere/raw/bafy/1/ciqa.car";
       record_offset := 2; record_length := 2 |} ])
  = Some "complete/bafy.car".
Proof. reflexivity. Qed.

(** [find] returns the first element that passes the test. *)
Lemma find_first_match (f : Item -> bool) (P : Item -> Prop) (items : list Item) (item : Item) :
  (forall i, f i = true <-> P i) ->
  find f items = Some item -> first_match P items item.
Proof.
  intros Hf. induction items as [|x items IH]; cbn; [discriminate |].
  destruct (f x) eqn:Hx.
  - intros [= <-]. exists [], items. repeat split; [apply Hf, Hx | constructor].
  - intros Hfind. destruct (IH Hfind) as (before & after & -> & HP & Hnone).
    exists (x :: before), after. repeat split; [exact HP |].
    constructor; [| exact Hnone]. rewrite <- Hf, Hx. discriminate.
Qed.

(** [find] returns [undefined] when no element passes the test. *)
Lemma find_no_match (f : Item -> bool) (P : Item -> Prop) (items : list Item) :
  (forall i, f i = true <-> P i) ->
  find f items = None -> Forall (fun i => ~ P i) items.
Proof.
  intros Hf. induction items as [|x items IH]; cbn; [constructor |].
  destruct (f x) eqn:Hx; [discriminate |].
  intros Hfind. constructor; [| exact (IH Hfind)]. rewrite <- Hf, Hx. discriminate.
Qed.

Lemma first_match_unique (P : Item -> Prop) (items : list Item) (a b : Item) :
  first_match P items a -> first_match P items b -> a = b.
Proof.
  intros (ba & aa & Ha & HPa & Hna) (bb & ab & Hb & HPb & Hnb). subst items.
  revert bb Hb Hnb. induction ba as [|x ba IH]; intros [|y bb] Hb Hnb; cbn in *.
  - congruence.
  - injection Hb as -> _. apply Forall_cons in Hnb as [Hn _]. contradiction.
  - injection Hb as -> _. apply Forall_cons in Hna as [Hn _]. contradiction.
  - injection Hb as -> Hb. apply Forall_cons in Hna as [_ Hna].
    apply Forall_cons in Hnb as [_ Hnb]. eauto.
Qed.

(** C3. On a non-empty list the selection returns a candidate, and which
    one is fixed by the first rule that applies: the first candidate in
    the current bucket; if there is none, the first in [dotstorage-prod-1]
    under a [raw] key; if there is none, the first in [dotstorage-prod-0]
    under a [raw] key; if there is none, the head of the list.  So a
    current-bucket candidate is selected whenever one is present. *)
Theorem selectItem_first_match_wins (items : list Item) :
  items <> [] ->
  exists item,
    selectItem items = Some item /\
    ( first_match current items item
      \/ (Forall (fun i => ~ current i) items /\
          first_match (legacy_raw "dotstorage-prod-1") items item)
      \/ (Forall (fun i => ~ current i) items /\
          Forall (fun i => ~ legacy_raw "dotstorage-prod-1" i) items /\
          first_match (legacy_raw "dotstorage-prod-0") items item)
      \/ (Forall (fun i => ~ current i) items /\
          Forall (fun i => ~ legacy_raw "dotstorage-prod-1" i) items /\
          Forall (fun i => ~ legacy_raw "dotstorage-prod-0" i) items /\
          head items = Some item) ) /\
    ((exists c, c ∈ items /\ current c) -> first_match current items item).
Proof.
  intros Hne. unfold selectItem.
  destruct (find (inBucket "carpark-prod-0") items) as [c|] eqn:Hc.
  - apply (find_first_match _ current) in Hc; [| apply inBucket_current].
    exists c. cbn. auto.
  - apply (find_no_match _ current) in Hc; [| apply inBucket_current].
    assert (Hnocur : (exists c, c ∈ items /\ current c) -> False).
    { intros (c & Hin & Hcur). rewrite Forall_forall in Hc. exact (Hc c Hin Hcur). }
    destruct (find (inBucketRaw "dotstorage-prod-1") items) as [l1|] eqn:H1.
    + apply (find_first_match _ (legacy_raw "dotstorage-prod-1")) in H1;
        [| apply inBucketRaw_legacy_raw].
      exists l1. cbn. intuition.
    + apply (find_no_match _ (legacy_raw "dotstorage-prod-1")) in H1;
        [| apply inBucketRaw_legacy_raw].
      destruct (find (inBucketRaw "dotstorage-prod-0") items) as [l0|] eqn:H0.
      * apply (find_first_match _ (legacy_raw "dotstorage-prod-0")) in H0;
          [| apply inBucketRaw_legacy_raw].
        exists l0. cbn. intuition.
      * apply (find_no_match _ (legacy_raw "dotstorage-prod-0")) in H0;
          [| apply inBucketRaw_legacy_raw].
        destruct items as [|x items]; [contradiction |].
        exists x. cbn. intuition.
Qed.

Lemma selectItem_first_match_wins_witness :
  exists item,
    selectItem (normalize <$> [
      {| carpath := "us-east-2/dotstorage-prod-1/raw/bafy/315318734258452893/ciqa.car";
         record_offset := 3000; record_length := 50 |};
      {| carpath := "us-west-2/carpark-prod-0/raw/bagbaiera.car";
         record_offset := 100; record_length := 50 |} ]) = Some item /\
    bucket item = Some "carpark-prod-0" /\ key item = "raw/bagbaiera.car" /\ offset item = 100.
Proof.
  edestruct (selectItem_first_match_wins (normalize <$> [
      {| carpath := "us-east-2/dotstorage-prod-1/raw/bafy/315318734258452893/ciqa.car";
         record_offset := 3000; record_length := 50 |};
      {| carpath := "us-west-2/carpark-prod-0/raw/bagbaiera.car";
         record_offset := 100; record_length := 50 |} ]))
    as (item & Hsel & _ & _); [discriminate |].
  exists item. split; [exact Hsel |].
  vm_compute in Hsel. injection Hsel as <-. repeat split.
Defined.

(** *** The resolver's [get] *)

Section Resolver.
Context `{MF : Multiformats} `{UC : Ucanto} `{PF : Platform}.

(** [get] after the query and the selection. *)
Lemma get_selected (self : BlockIndexClaimFetcher) (now : Z) (subject : Link)
    (out : QueryOutput) (item : Item) :
  dynamoClient self (queryCommand self subject) = Ok out ->
  selectItem (normalize <$> default [] (Items out)) = Some item ->
  get self now subject =
    location ← URL_toString
      ("https://" +:+ bucketString item +:+ ".s3.amazonaws.com/" +:+ key item);
    locationClaim ←
      buildLocationClaim (signer self) subject [location]
        (offset item) (length item) (Some (expiresAt now));
    relationClaims ←
      match bucketKeyToPartCID (key item) with
      | Some part =>
          relationClaim ←
            buildRelationClaim (signer self) subject part
              (offset item) (length item) (Some (expiresAt now));
          Ok [relationClaim]
      | None => Ok []
      end;
    Ok (locationClaim :: relationClaims).
Proof.
  intros Hq Hsel. unfold get. rewrite (bind_Ok _ _ _ Hq). cbv zeta.
  rewrite Hsel. reflexivity.
Qed.

(** C4. When the query of the position index returns no record, be it an
    empty [Items] or none, [get] returns the empty list of claims and does
    not throw. *)
Theorem get_no_records (self : BlockIndexClaimFetcher) (now : Z) (subject : Link)
    (out : QueryOutput) :
  dynamoClient self (queryCommand self subject) = Ok out ->
  Items out = None \/ Items out = Some [] ->
  get self now subject = Ok [].
Proof.
  intros Hq Hitems. unfold get. rewrite (bind_Ok _ _ _ Hq). cbv zeta.
  destruct Hitems as [-> | ->]; reflexivity.
Qed.


(** A part, when there is one, is a version 1 CID of the CAR codec. *)
Lemma bucketKeyToPartCID_car (key : string) (part : Link) :
  bucketKeyToPartCID key = Some part ->
  cid_code part = CAR_CODE /\ cid_version part = 1.
Proof.
  unfold bucketKeyToPartCID, partOfCID, partOfMultihash. cbv zeta.
  generalize (keyHash key). intros hash.
  destruct (Link_parse hash) as [parsed|e1]; cbn;
    [ unfold Link.toV1;
      destruct (Z.eqb_spec (cid_version parsed) 0) as [Hv0|Hv0]; cbn;
      [ destruct (Z.eqb_spec (cid_code parsed) CAR_CODE) as [Hcar|Hcar]
      | destruct (Z.eqb_spec (cid_version parsed) 1) as [Hv1|Hv1]; cbn;
        [ destruct (Z.eqb_spec (cid_code parsed) CAR_CODE) as [Hcar|Hcar] | ] ] | ];
    try (destruct (fromString_base32 hash) as [bs|e3]; cbn;
         [ destruct (Digest_decode bs) as [d|e4]; cbn | ]);
    intros [= <-]; auto.
Qed.

Example expiresAt_sample : expiresAt 1700000000123 = 1700003601.
Proof. reflexivity. Qed.

Example expiresAt_whole_second : expiresAt 1700000000000 = 1700003600.
Proof. reflexivity. Qed.


(** What [buildLocationClaim] returns, when it returns. *)
Lemma buildLocationClaim_Ok (signer : Signer) (subject : Link) (location : list string)
    (off len : Z) (expires : Z) (rec : Claim) :
  buildLocationClaim signer subject location off len (Some expires) = Ok rec ->
  value rec = Some {| can := Assert.location_can; with_ := did signer;
                      nb := Some (locationNb subject location off len) |} /\
  claim_content rec = cid_multihash subject /\
  claim_expiration rec = expires.
Proof.
  intros H. apply buildClaim_Ok in H as (_ & _ & Hc & He & Hv).
  repeat split; assumption.
Qed.

(** What [buildRelationClaim] returns, when it returns. *)
Lemma buildRelationClaim_Ok (signer : Signer) (subject part : Link)
    (off len : Z) (expires : Z) (rec : Claim) :
  buildRelationClaim signer subject part off len (Some expires) = Ok rec ->
  value rec = Some {| can := Assert.relation_can; with_ := did signer;
                      nb := Some (relationNb subject part
                                    (encodeIndex subject (carOffset subject off len))) |} /\
  claim_content rec = cid_multihash subject /\
  claim_expiration rec = expires.
Proof.
  intros H. apply buildClaim_Ok in H as (_ & _ & Hc & He & Hv).
  repeat split; assumption.
Qed.


(** What [get] did, when it returns. *)
Lemma get_Ok_inv (self : BlockIndexClaimFetcher) (now : Z) (subject : Link)
    (claims : list Claim) :
  get self now subject = Ok claims ->
  claims = [] \/
  exists (item : Item) (href : string) (loc : Claim),
    buildLocationClaim (signer self) subject [href] (offset item) (length item)
      (Some (expiresAt now)) = Ok loc /\
    (claims = [loc] \/
     exists part rel,
       bucketKeyToPartCID (key item) = Some part /\
       buildRelationClaim (signer self) subject part (offset item) (length item)
         (Some (expiresAt now)) = Ok rel /\
       claims = [loc; rel]).
Proof.
  unfold get. intros H. apply bind_Ok_inv in H as (out & _ & H). cbv zeta in H.
  destruct (selectItem (normalize <$> default [] (Items out))) as [item|].
  - right. apply bind_Ok_inv in H as (href & _ & H).
    apply bind_Ok_inv in H as (loc & Hloc & H).
    apply bind_Ok_inv in H as (rels & Hrels & [= <-]).
    exists item, href, loc. split; [exact Hloc |].
    destruct (bucketKeyToPartCID (key item)) as [part|].
    + apply bind_Ok_inv in Hrels as (rel & Hrel & [= <-]).
      right. exists part, rel. auto.
    + injection Hrels as <-. left. reflexivity.
  - left. congruence.
Qed.


End Resolver.

(** The three ways a key can go, on the sample parser. *)
Example part_of_car_cid :
  bucketKeyToPartCID (MF := Sample.MF) "raw/bagbaiera.car" = Some Sample.carLink.
Proof. reflexivity. Qed.

Example part_of_multihash :
  bucketKeyToPartCID (MF := Sample.MF) "raw/bafy/315318734258452893/ciqa.car"
  = Some (Link.create CAR_CODE (mkDigest 0x12 2 [5; 6] [0x12; 2; 5; 6])).
Proof. reflexivity. Qed.

Example part_of_other_cid :
  bucketKeyToPartCID (MF := Sample.MF) "complete/bafkrei.car" = None.
Proof. reflexivity. Qed.

Example subject_is_36_octets : List.length (cid_bytes Sample.subject) = 36%nat.
Proof. reflexivity. Qed.

Lemma get_no_records_witness :
  get (MF := Sample.MF) (UC := Sample.ucanto) (PF := Sample.PF)
    Sample.emptyFetcher Sample.now Sample.subject = Ok [].
Proof.
  apply (get_no_records (MF := Sample.MF) (UC := Sample.ucanto) (PF := Sample.PF)
           Sample.emptyFetcher Sample.now Sample.subject {| Items := Some [] |}).
  - reflexivity.
  - right. reflexivity.
Defined.



(** *** Archived records *)

Section Archive.
Context `{UC : Ucanto} `{UA : !UcantoArchive}.

(** C2. A record that [buildClaim] returns for an invocation whose
    capability names the subject carries the multihash of that subject,
    and its bytes extract to a delegation whose CID is the record's claim
    identifier and whose capability is the one that was signed; so the
    [equals] of an equals claim is read back as it was written. *)
Theorem buildClaim_record_verifiable (subject : Link) (invocation : Invocation)
    (cap : Capability) (rec : Claim) :
  head (capabilities invocation) = Some cap ->
  nb_field "content" cap = Some (VLink subject) ->
  buildClaim subject invocation = Ok rec ->
  (exists s, value rec ≫= nb_field "content" = Some (VLink s) /\
             claim_content rec = cid_multihash s) /\
  exists d,
    extract (claim_bytes rec) = Ok d /\
    delegation_cid d = claim rec /\
    head (delegation_capabilities d) = Some cap /\
    (can cap = Assert.equals_can ->
     forall e, nb_field "equals" cap = Some e ->
       head (delegation_capabilities d) ≫= nb_field "equals" = Some e).
Proof.
  intros Hhead Hsubject Hbuild.
  apply buildClaim_Ok in Hbuild as (Harchive & Hclaim & Hcontent & _ & Hvalue).
  split.
  - exists subject. rewrite Hvalue, Hhead. split; [exact Hsubject | exact Hcontent].
  - exists (buildIPLDView invocation).
    split; [exact (extract_archive _ _ Harchive) |].
    split; [symmetry; exact Hclaim |].
    split; [exact Hhead |].
    intros _ e He. cbn. rewrite Hhead. exact He.
Qed.

End Archive.

(** Both callers of [buildClaim] pass the subject their capability names. *)
Lemma builders_name_their_subject `{MF : Multiformats} `{PF : Platform}
    (signer : Signer) (subject part : Link) (location : list string)
    (off len : Z) (expiration : option Z) :
  (head (capabilities (locationInvocation signer subject location off len expiration))
     ≫= nb_field "content") = Some (VLink subject) /\
  (head (capabilities (relationInvocation signer subject part off len expiration))
     ≫= nb_field "content") = Some (VLink subject).
Proof. split; reflexivity. Qed.

(** The numbered archives of the sample data extract to what was archived. *)
Lemma sample_archive (known : list Delegation) : @UcantoArchive (Sample.UC known).
Proof.
  constructor. intros d b. cbn.
  destruct (list_find (fun k => k = d) known) as [[i k]|] eqn:Hfind; [| discriminate].
  intros [= <-]. apply list_find_Some in Hfind as (Hi & -> & _).
  rewrite Nat2Z.id, Hi. reflexivity.
Qed.

Lemma buildClaim_record_verifiable_witness :
  exists d,
    extract (Ucanto := Sample.ucanto) (claim_bytes Sample.equalsClaim) = Ok d /\
    delegation_cid d = claim Sample.equalsClaim /\
    head (delegation_capabilities d) ≫= nb_field "equals" = Some (VLink Sample.other).
Proof.
  destruct (buildClaim_record_verifiable (UC := Sample.ucanto)
              (UA := sample_archive Sample.known)
              Sample.subject Sample.equalsInvocation
              {| can := Assert.equals_can; with_ := did Sample.service;
                 nb := Some (VMap (<["content" := VLink Sample.subject]>
                                  (<["equals" := VLink Sample.other]> ∅))) |}
              Sample.equalsClaim)
    as (_ & d & Hextract & Hcid & _ & Hequals).
  - reflexivity.
  - reflexivity.
  - vm_compute. reflexivity.
  - exists d. split; [exact Hextract |]. split; [exact Hcid |].
    apply Hequals; reflexivity.
Defined.

End BlockIndexFacts.

(** ** The client *)

Module ClientFacts.
Import Client.

Section Decoder.
Context `{UC : Ucanto}.

(** The guard of [decode] passes exactly the objects with a [content]. *)
Lemma guard_content (cap : Capability) :
  negb (truthy (nb cap))
  || negb (bool_decide (typeof (default VNull (nb cap)) = "object"))
  || negb (has_content (default VNull (nb cap))) = false
  <-> exists m, nb cap = Some (VMap m) /\ is_Some (m !! "content").
Proof.
  split.
  - destruct (nb cap) as [v|]; [| discriminate].
    destruct v; cbn; rewrite ?orb_true_r; try discriminate.
    intros H. apply orb_false_iff in H as [_ H].
    apply negb_false_iff, bool_decide_eq_true_1 in H. eauto.
  - intros (m & -> & H). cbn.
    rewrite (bool_decide_eq_true_2 _ H). reflexivity.
Qed.

(** What [decode] returns, when it returns. *)
Lemma decode_Ok (bytes : bytes) (d : Delegation) (cap : Capability)
    (m : gmap string Value) :
  extract bytes = Ok d ->
  head (delegation_capabilities d) = Some cap ->
  nb cap = Some (VMap m) ->
  is_Some (m !! "content") ->
  decode bytes = Ok {| props := spread (VMap m) (claimType (can cap));
                       export_ := d; archive_ := bytes |}.
Proof.
  intros Hx Hcap Hnb Hcontent. unfold decode. rewrite Hx, Hcap.
  assert (Hguard : exists m, nb cap = Some (VMap m) /\ is_Some (m !! "content")) by eauto.
  apply guard_content in Hguard. rewrite Hguard, Hnb. reflexivity.
Qed.

(** [decode] throws [invalid claim] on a capability without [content]. *)
Lemma decode_invalid (bytes : bytes) (d : Delegation) (cap : Capability) :
  extract bytes = Ok d ->
  head (delegation_capabilities d) = Some cap ->
  nb_field "content" cap = None ->
  decode bytes = Throw (mkError "invalid claim").
Proof.
  intros Hx Hcap Hnone. unfold decode. rewrite Hx, Hcap.
  destruct (negb (truthy (nb cap))
            || negb (bool_decide (typeof (default VNull (nb cap)) = "object"))
            || negb (has_content (default VNull (nb cap)))) eqn:Hguard;
    [reflexivity |].
  apply guard_content in Hguard as (m & Hnb & Hsome).
  unfold nb_field in Hnone. rewrite Hnb in Hnone. rewrite Hnone in Hsome.
  destruct Hsome as [? [=]].
Qed.

(** The messages [decode] throws. *)
Lemma decode_Throw (bytes : bytes) (e : Error) :
  decode bytes = Throw e ->
  message e = "failed to decode claim" \/
  message e = "Cannot read properties of undefined (reading 'nb')" \/
  message e = "invalid claim".
Proof.
  unfold decode. destruct (extract bytes) as [d|?]; [| intros [= <-]; auto].
  destruct (head (delegation_capabilities d)) as [cap|]; [| intros [= <-]; auto].
  destruct (_ || _); intros [= <-]; auto.
Qed.

(** The properties of the object literal of [decode]. *)
Lemma spread_type (nb : Value) (type : string) :
  spread nb type !! "type" = Some (VStr type).
Proof. unfold spread. apply lookup_insert_eq. Qed.

Lemma spread_other (m : gmap string Value) (type k : string) :
  k <> "type" -> k <> "export" -> k <> "archive" ->
  spread (VMap m) type !! k = m !! k.
Proof.
  intros H1 H2 H3. unfold spread.
  rewrite lookup_insert_ne, !lookup_delete_ne by congruence. reflexivity.
Qed.

Lemma claimType_unknown (can : string) :
  can ∉ [Assert.location_can; Assert.partition_can; Assert.inclusion_can;
         Assert.relation_can; Assert.equals_can] ->
  claimType can = "unknown".
Proof.
  intros Hnot. unfold claimType.
  repeat (case_bool_decide; [exfalso; apply Hnot; subst can; set_solver |]).
  reflexivity.
Qed.

(** C6, amended. [decode] looks for [content] and for nothing else: a
    capability whose [nb] is missing, is no object or has no [content] is
    rejected as an invalid claim, and one whose [nb] has a [content] is
    decoded, with the type of its kind and with the fields it has, whether
    or not the kind asks for more. *)
Theorem decode_requires_content_only (bytes : bytes) (d : Delegation) (cap : Capability) :
  extract bytes = Ok d ->
  head (delegation_capabilities d) = Some cap ->
  (nb_field "content" cap = None -> decode bytes = Throw (mkError "invalid claim")) /\
  (is_Some (nb_field "content" cap) ->
   exists c,
     decode bytes = Ok c /\
     type c = Some (VStr (claimType (can cap))) /\
     forall k, k <> "type" -> k <> "export" -> k <> "archive" ->
       props c !! k = nb_field k cap).
Proof.
  intros Hx Hcap. split; [exact (decode_invalid _ _ _ Hx Hcap) |].
  unfold nb_field. destruct (nb cap) as [[| | | | | | | m]|] eqn:Hnb;
    intros Hcontent; try (destruct Hcontent as [? Hc]; discriminate Hc).
  eexists. split; [exact (decode_Ok _ _ _ _ Hx Hcap Hnb Hcontent) |].
  split; [apply spread_type |]. intros k. apply spread_other.
Qed.

(** C7. An archive that extracts to a capability with a [content], of a
    kind that is none of the five, decodes to a claim of type [unknown]
    that keeps the named parameters as they are, the delegation and the
    bytes. *)
Theorem decode_unknown_kind (bytes : bytes) (d : Delegation) (cap : Capability)
    (m : gmap string Value) :
  extract bytes = Ok d ->
  head (delegation_capabilities d) = Some cap ->
  nb cap = Some (VMap m) ->
  is_Some (m !! "content") ->
  can cap ∉ [Assert.location_can; Assert.partition_can; Assert.inclusion_can;
             Assert.relation_can; Assert.equals_can] ->
  exists c,
    decode bytes = Ok c /\
    type c = Some (VStr "unknown") /\
    (forall k, k <> "type" -> k <> "export" -> k <> "archive" -> props c !! k = m !! k) /\
    export_ c = d /\
    archive_ c = bytes.
Proof.
  intros Hx Hcap Hnb Hcontent Hkind. eexists.
  split; [exact (decode_Ok _ _ _ _ Hx Hcap Hnb Hcontent) |].
  unfold type. cbn [props export_ archive_].
  rewrite (claimType_unknown _ Hkind).
  split; [apply spread_type |]. split; [| auto].
  intros k. apply spread_other.
Qed.

End Decoder.

(** *** Reading a response *)

Section Reader.
Context `{MF : Multiformats} `{UC : Ucanto}.
Variable globalThis_fetch : Request -> result Response.

#[local] Abbreviation read := (read globalThis_fetch).
#[local] Abbreviation fetch := (fetch globalThis_fetch).

(** [write] on a block that verifies and decodes. *)
Lemma write_accepted (block : Block) (claim : Claim) (claims : list Claim) :
  accepted block claim -> write block claims = Ok (claims ++ [claim]).
Proof.
  intros [Hv Hd]. unfold write, bytes_equals.
  rewrite (bool_decide_eq_true_2 _ Hv). cbn [negb]. rewrite Hd. reflexivity.
Qed.

(** [write] on a block whose bytes do not hash to its CID. *)
Lemma write_unverified (block : Block) (claims : list Claim) :
  ~ verified block ->
  write block claims =
    Throw (mkError ("hash verification failed: " +:+ Link_toString (block_cid block))).
Proof.
  intros Hv. unfold write, bytes_equals.
  rewrite (bool_decide_eq_false_2 _ Hv). reflexivity.
Qed.

(** [write] on a block that verifies and does not decode. *)
Lemma write_undecodable (block : Block) (claims : list Claim) (e : Error) :
  verified block -> decode (block_bytes block) = Throw e ->
  write block claims = Throw e.
Proof.
  intros Hv Hd. unfold write, bytes_equals.
  rewrite (bool_decide_eq_true_2 _ Hv). cbn [negb]. rewrite Hd. reflexivity.
Qed.

(** [write] either accepts the block or throws, and then not for the end
    of the data. *)
Lemma write_cases (block : Block) (claims : list Claim) :
  (exists claim, accepted block claim /\ write block claims = Ok (claims ++ [claim])) \/
  (exists e, write block claims = Throw e /\ message e <> END_OF_DATA /\
             (~ verified block \/ decode (block_bytes block) = Throw e)).
Proof.
  destruct (decide (verified block)) as [Hv|Hv].
  - destruct (decode (block_bytes block)) as [claim|e] eqn:Hd.
    + left. exists claim. split; [split; assumption |].
      apply write_accepted. split; assumption.
    + right. exists e. split; [apply write_undecodable; assumption |].
      split; [| auto].
      destruct (decode_Throw _ _ Hd) as [-> | [-> | ->]]; discriminate.
  - right. eexists. split; [apply write_unverified; exact Hv |].
    split; [| auto]. cbn. rewrite app_String. discriminate.
Qed.

(** [write]'s own error is the rejection unless the stream had failed
    while this write was in flight. *)
Lemma rejection_settled (after : list Block) (failure : option Failure) (e : Error) :
  after <> [] \/ failure = None \/
    (exists f, failure = Some f /\ during_write f = false) ->
  rejection after failure e = e.
Proof.
  unfold rejection. intros [Hafter | [-> | (f & -> & Hf)]].
  - destruct after; [contradiction | reflexivity].
  - destruct after; reflexivity.
  - rewrite Hf. destruct after; reflexivity.
Qed.

Lemma rejection_overtaken (failure : option Failure) (f : Failure) (e : Error) :
  failure = Some f -> during_write f = true -> rejection [] failure e = reason f.
Proof. intros -> Hf. unfold rejection. rewrite Hf. reflexivity. Qed.

Lemma rejection_cases (after : list Block) (failure : option Failure) (e : Error) :
  (after <> [] \/ failure = None \/
     (exists f, failure = Some f /\ during_write f = false)) \/
  (exists f, after = [] /\ failure = Some f /\ during_write f = true).
Proof.
  destruct after as [|b after]; [| left; left; discriminate].
  destruct failure as [f|]; [| left; right; left; reflexivity].
  destruct (during_write f) eqn:Hf; [right | left; right; right]; eauto.
Qed.

(** [pipeTo] over blocks that are all accepted. *)
Lemma pipeTo_accepted (blocks : list Block) (failure : option Failure) :
  forall (accepted_claims claims : list Claim),
  Forall2 accepted blocks accepted_claims ->
  pipeTo blocks failure claims = (claims ++ accepted_claims, reason <$> failure).
Proof.
  induction blocks as [|b blocks IH]; intros cs claims Hall.
  - apply Forall2_nil_inv_l in Hall as ->. cbn. rewrite app_nil_r. reflexivity.
  - apply Forall2_cons_inv_l in Hall as (c & cs' & Hb & Hall & ->).
    cbn [pipeTo]. rewrite (write_accepted _ _ _ Hb), (IH _ _ Hall), <- app_assoc.
    reflexivity.
Qed.

(** [pipeTo] stops at the first block that [write] throws on. *)
Lemma pipeTo_rejected (before : list Block) (block : Block) (after : list Block)
    (failure : option Failure) (accepted_claims claims : list Claim) (e : Error) :
  Forall2 accepted before accepted_claims ->
  write block (claims ++ accepted_claims) = Throw e ->
  pipeTo (before ++ block :: after) failure claims
  = (claims ++ accepted_claims, Some (rejection after failure e)).
Proof.
  revert accepted_claims claims.
  induction before as [|b before IH]; intros cs claims Hall Hthrow.
  - apply Forall2_nil_inv_l in Hall as ->. cbn [app pipeTo].
    rewrite app_nil_r in *. rewrite Hthrow. reflexivity.
  - apply Forall2_cons_inv_l in Hall as (c & cs' & Hb & Hall & ->).
    cbn [app pipeTo]. rewrite (write_accepted _ _ _ Hb).
    rewrite (IH cs' (claims ++ [c]) Hall), <- app_assoc; [reflexivity |].
    rewrite <- app_assoc. exact Hthrow.
Qed.

(** Every run of [pipeTo] is one of the two. *)
Lemma pipeTo_cases (blocks : list Block) (claims : list Claim) :
  (exists accepted_claims, Forall2 accepted blocks accepted_claims) \/
  (exists before block after accepted_claims e,
     blocks = before ++ block :: after /\
     Forall2 accepted before accepted_claims /\
     write block (claims ++ accepted_claims) = Throw e /\
     message e <> END_OF_DATA /\
     (~ verified block \/ decode (block_bytes block) = Throw e)).
Proof.
  revert claims. induction blocks as [|b blocks IH]; intros claims.
  - left. exists []. constructor.
  - destruct (write_cases b claims) as [(c & Hb & _) | (e & Hthrow & Hmsg & Hwhy)].
    + destruct (IH (claims ++ [c]))
        as [(cs & Hall) | (before & block & after & cs & e & -> & Hall & Hthrow & Hmsg & Hwhy)].
      * left. exists (c :: cs). constructor; assumption.
      * right. exists (b :: before), block, after, (c :: cs), e.
        rewrite <- app_assoc in Hthrow.
        repeat split; try assumption. constructor; assumption.
    + right. exists [], b, blocks, [], e. rewrite app_nil_r.
      repeat split; try assumption. constructor.
Qed.

Lemma caught_tolerated (err : Error) :
  message err = END_OF_DATA -> caught [] err = Ok [].
Proof. intros H. unfold caught. rewrite (bool_decide_eq_true_2 _ H). reflexivity. Qed.

Lemma caught_thrown (claims : list Claim) (err : Error) :
  claims <> [] \/ message err <> END_OF_DATA -> caught claims err = Throw err.
Proof.
  unfold caught. intros [Hne | Hmsg].
  - destruct claims; [contradiction | reflexivity].
  - rewrite (bool_decide_eq_false_2 _ Hmsg), andb_false_r. reflexivity.
Qed.

Lemma caught_Ok (claims claims' : list Claim) (err : Error) :
  caught claims err = Ok claims' -> claims = [] /\ claims' = [] /\ message err = END_OF_DATA.
Proof.
  unfold caught. destruct claims; cbn.
  - case_bool_decide; [intros [= <-]; auto | discriminate].
  - discriminate.
Qed.

(** [read] once the response is there. *)
Lemma read_body (content : Link) (options : option FetchOptions)
    (res : Response) (stream : BlockStream) :
  fetch content options = Ok res ->
  response_ok res = true ->
  body res = Some stream ->
  read content options =
    match pipeTo (blocks stream) (failure stream) [] with
    | (claims, Some err) => caught claims err
    | (claims, None) => Ok claims
    end.
Proof.
  intros Hfetch Hok Hbody. unfold Client.read.
  rewrite (bind_Ok _ _ _ Hfetch), Hok, Hbody. reflexivity.
Qed.

(** [read] on a stream whose blocks are all accepted. *)
Lemma read_accepted (content : Link) (options : option FetchOptions)
    (res : Response) (stream : BlockStream) (claims : list Claim) :
  fetch content options = Ok res ->
  response_ok res = true ->
  body res = Some stream ->
  Forall2 accepted (blocks stream) claims ->
  read content options =
    match failure stream with
    | None => Ok claims
    | Some f => caught claims (reason f)
    end.
Proof.
  intros Hfetch Hok Hbody Hall.
  rewrite (read_body _ _ _ _ Hfetch Hok Hbody), (pipeTo_accepted _ _ _ [] Hall).
  destruct (failure stream); reflexivity.
Qed.

(** [read] on a stream with a block that [write] throws on. *)
Lemma read_rejected (content : Link) (options : option FetchOptions)
    (res : Response) (stream : BlockStream)
    (before : list Block) (block : Block) (after : list Block)
    (claims : list Claim) (e : Error) :
  fetch content options = Ok res ->
  response_ok res = true ->
  body res = Some stream ->
  blocks stream = before ++ block :: after ->
  Forall2 accepted before claims ->
  write block claims = Throw e ->
  read content options = caught claims (rejection after (failure stream) e).
Proof.
  intros Hfetch Hok Hbody Hblocks Hall Hthrow.
  rewrite (read_body _ _ _ _ Hfetch Hok Hbody), Hblocks.
  rewrite (pipeTo_rejected _ _ _ _ claims [] e Hall Hthrow). reflexivity.
Qed.


(** What [read] did, when it returns: it accepted every block and the
    stream ended, or it had nothing and swallowed the end of data. *)
Lemma read_Ok_inv (content : Link) (options : option FetchOptions)
    (res : Response) (stream : BlockStream) (claims : list Claim) :
  fetch content options = Ok res ->
  response_ok res = true ->
  body res = Some stream ->
  read content options = Ok claims ->
  (failure stream = None /\ Forall2 accepted (blocks stream) claims) \/
  (claims = [] /\
   exists f, failure stream = Some f /\ message (reason f) = END_OF_DATA /\
     (blocks stream = [] \/
      exists block, blocks stream = [block] /\ during_write f = true /\
                    forall c, ~ accepted block c)).
Proof.
  intros Hfetch Hok Hbody Hread.
  destruct (pipeTo_cases (blocks stream) [])
    as [(cs & Hall) | (before & block & after & cs & e & Hb & Hall & Hthrow & Hmsg & Hwhy)].
  - rewrite (read_accepted _ _ _ _ _ Hfetch Hok Hbody Hall) in Hread.
    destruct (failure stream) as [f|] eqn:Hf.
    + apply caught_Ok in Hread as (-> & -> & Hmsg). right. split; [reflexivity |].
      exists f. repeat split; try assumption. left.
      apply Forall2_nil_inv_r in Hall. exact Hall.
    + injection Hread as <-. left. auto.
  - rewrite (read_rejected _ _ _ _ _ _ _ _ _ Hfetch Hok Hbody Hb Hall Hthrow) in Hread.
    apply caught_Ok in Hread as (-> & -> & Hend).
    destruct (rejection_cases after (failure stream) e)
      as [Hsettled | (f & -> & Hf & Hduring)].
    + rewrite (rejection_settled _ _ _ Hsettled) in Hend. contradiction.
    + rewrite (rejection_overtaken _ _ _ Hf Hduring) in Hend.
      apply Forall2_nil_inv_r in Hall as ->.
      right. split; [reflexivity |]. exists f. repeat split; try assumption.
      right. exists block. repeat split; try assumption.
      intros c Hc. cbn [app] in Hthrow.
      rewrite (write_accepted _ _ [] Hc) in Hthrow. discriminate.
Qed.


(** C8, amended. [read] drops nothing: at a block that fails the hash
    check or does not decode it stops, and it throws that block's error,
    with or without claims before it, unless the stream itself failed
    while the block was being written, when the stream's error takes its
    place.  The one error [read] swallows is the end of data before any
    claim, for which it returns the empty list; an error with a claim
    before it, or with another message, is thrown; a stream that ends
    well gives the claims of all its blocks; and claims are returned from
    no other stream. *)
Theorem read_error_handling (content : Link) (options : option FetchOptions)
    (res : Response) (stream : BlockStream) :
  fetch content options = Ok res ->
  response_ok res = true ->
  body res = Some stream ->
  (forall before block after claims e,
     blocks stream = before ++ block :: after ->
     Forall2 accepted before claims ->
     (~ verified block /\
      e = mkError ("hash verification failed: " +:+ Link_toString (block_cid block)))
     \/ (verified block /\ decode (block_bytes block) = Throw e) ->
     (after <> [] \/ failure stream = None \/
        (exists f, failure stream = Some f /\ during_write f = false) ->
      read content options = Throw e) /\
     (forall f,
        after = [] -> failure stream = Some f -> during_write f = true ->
        (claims = [] -> message (reason f) = END_OF_DATA ->
         read content options = Ok []) /\
        (claims <> [] \/ message (reason f) <> END_OF_DATA ->
         read content options = Throw (reason f)))) /\
  (forall claims f,
     Forall2 accepted (blocks stream) claims -> failure stream = Some f ->
     (claims = [] -> message (reason f) = END_OF_DATA ->
      read content options = Ok []) /\
     (claims <> [] \/ message (reason f) <> END_OF_DATA ->
      read content options = Throw (reason f))) /\
  (forall claims,
     Forall2 accepted (blocks stream) claims -> failure stream = None ->
     read content options = Ok claims) /\
  (forall claims,
     read content options = Ok claims -> claims <> [] ->
     failure stream = None /\ Forall2 accepted (blocks stream) claims).
Proof.
  intros Hfetch Hok Hbody. split; [| split; [| split]].
  - intros before block after claims e Hb Hall Hwhy.
    assert (Hthrow : write block claims = Throw e /\ message e <> END_OF_DATA).
    { destruct (write_cases block claims)
        as [(c & [Hv Hd] & _) | (e' & Hthrow & Hmsg & _)].
      - destruct Hwhy as [[Hnv _] | [_ Hnd]]; [contradiction | congruence].
      - assert (e' = e) as ->; [| auto].
        destruct Hwhy as [[Hnv ->] | [Hv Hd]].
        + rewrite (write_unverified _ _ Hnv) in Hthrow. congruence.
        + rewrite (write_undecodable _ _ _ Hv Hd) in Hthrow. congruence. }
    destruct Hthrow as [Hthrow Hmsg].
    pose proof (read_rejected _ _ _ _ _ _ _ _ _ Hfetch Hok Hbody Hb Hall Hthrow)
      as Hread.
    split.
    + intros Hsettled. rewrite Hread, (rejection_settled _ _ _ Hsettled).
      apply caught_thrown. right. exact Hmsg.
    + intros f -> Hf Hduring. rewrite Hread, (rejection_overtaken _ _ _ Hf Hduring).
      split.
      * intros -> Hend. apply caught_tolerated, Hend.
      * apply caught_thrown.
  - intros claims f Hall Hf.
    rewrite (read_accepted _ _ _ _ _ Hfetch Hok Hbody Hall), Hf. split.
    + intros -> Hend. apply caught_tolerated, Hend.
    + apply caught_thrown.
  - intros claims Hall Hf.
    rewrite (read_accepted _ _ _ _ _ Hfetch Hok Hbody Hall), Hf. reflexivity.
  - intros claims Hread Hne.
    destruct (read_Ok_inv _ _ _ _ _ Hfetch Hok Hbody Hread)
      as [Hclean | [-> _]]; [exact Hclean | contradiction].
Qed.

End Reader.

(** *** The sample archives *)

(** The archive of an equals capability that names no [equals] is decoded,
    as an equals claim without [equals], and not rejected. *)
Lemma decode_equals_without_equals :
  (exists d cap,
     extract (Ucanto := Sample.ucanto) [3] = Ok d /\
     head (delegation_capabilities d) = Some cap /\
     can cap = Assert.equals_can /\
     nb_field "equals" cap = None) /\
  ~ is_Throw (decode (UC := Sample.ucanto) [3]).
Proof.
  split.
  - eexists _, _. repeat split; vm_compute; reflexivity.
  - intros [e He]. vm_compute in He. discriminate He.
Qed.

Lemma decode_requires_content_only_witness :
  exists c,
    decode (UC := Sample.ucanto) [3] = Ok c /\
    type c = Some (VStr "assert/equals") /\
    props c !! "equals" = None /\
    props c !! "content" = Some (VLink Sample.subject).
Proof.
  destruct (decode_requires_content_only (UC := Sample.ucanto) [3]
              Sample.lameEqualsView
              {| can := Assert.equals_can; with_ := did Sample.service;
                 nb := Some (VMap (<["content" := VLink Sample.subject]> ∅)) |})
    as (_ & Hdecoded).
  - reflexivity.
  - reflexivity.
  - destruct Hdecoded as (c & Hc & Htype & Hprops).
    + eexists. reflexivity.
    + exists c. split; [exact Hc |]. split; [exact Htype |].
      split; [rewrite Hprops by discriminate | rewrite Hprops by discriminate];
        reflexivity.
Defined.

Lemma decode_unknown_kind_witness :
  exists c,
    decode (UC := Sample.ucanto) [4] = Ok c /\
    type c = Some (VStr "unknown") /\
    props c !! "note" = Some (VStr "kept").
Proof.
  destruct (decode_unknown_kind (UC := Sample.ucanto) [4] Sample.futureView
              {| can := "assert/future"; with_ := did Sample.service;
                 nb := Some (VMap (<["content" := VLink Sample.subject]>
                                  (<["note" := VStr "kept"]> ∅))) |}
              (<["content" := VLink Sample.subject]> (<["note" := VStr "kept"]> ∅)))
    as (c & Hc & Htype & Hprops & _).
  - reflexivity.
  - reflexivity.
  - reflexivity.
  - eexists. reflexivity.
  - vm_compute. intros H. repeat (apply elem_of_cons in H as [H | H]; [discriminate H |]).
    apply elem_of_nil in H. exact H.
  - exists c. split; [exact Hc |]. split; [exact Htype |].
    rewrite Hprops by discriminate. reflexivity.
Defined.

(** A block that is no archive, first in its stream: [read] throws the
    error of [decode]; it does not skip the block and return the rest.  So
    does a block whose bytes do not hash to its CID. *)
Lemma read_does_not_drop :
  verified (MF := Sample.MF) (Sample.hashed [9]) /\
  is_Throw (decode (UC := Sample.ucanto) [9]) /\
  Client.read (MF := Sample.MF) (UC := Sample.ucanto)
    (Sample.respond Sample.undecodableStream) Sample.subject None
    = Throw (mkError "failed to decode claim") /\
  ~ is_Ok (Client.read (MF := Sample.MF) (UC := Sample.ucanto)
             (Sample.respond
                {| blocks := [Sample.mislabelled [2]]; failure := None |})
             Sample.subject None).
Proof.
  repeat split.
  - eexists. vm_compute. reflexivity.
  - intros [claims H]. vm_compute in H. discriminate H.
Qed.

Lemma read_error_handling_witness :
  Client.read (MF := Sample.MF) (UC := Sample.ucanto)
    (Sample.respond Sample.truncatedStream) Sample.subject None = Ok [] /\
  Client.read (MF := Sample.MF) (UC := Sample.ucanto)
    (Sample.respond Sample.undecodableStream) Sample.subject None
    = Throw (mkError "failed to decode claim") /\
  Client.read (MF := Sample.MF) (UC := Sample.ucanto)
    (Sample.respond Sample.overtakenStream) Sample.subject None = Ok [] /\
  Client.read (MF := Sample.MF) (UC := Sample.ucanto)
    (Sample.respond Sample.lateOvertakenStream) Sample.subject None
    = Throw (mkError END_OF_DATA).
Proof.
  split; [| split; [| split]].
  - destruct (read_error_handling (MF := Sample.MF) (UC := Sample.ucanto)
                (Sample.respond Sample.truncatedStream) Sample.subject None
                {| response_ok := true; status := "200"; text := "";
                   body := Some Sample.truncatedStream |}
                Sample.truncatedStream eq_refl eq_refl eq_refl)
      as (_ & Hend & _).
    apply (Hend [] {| reason := mkError END_OF_DATA; during_write := false |});
      [constructor | reflexivity | reflexivity | reflexivity].
  - destruct (read_error_handling (MF := Sample.MF) (UC := Sample.ucanto)
                (Sample.respond Sample.undecodableStream) Sample.subject None
                {| response_ok := true; status := "200"; text := "";
                   body := Some Sample.undecodableStream |}
                Sample.undecodableStream eq_refl eq_refl eq_refl)
      as (Hrejected & _).
    destruct (Hrejected [] (Sample.hashed [9]) [] []
                (mkError "failed to decode claim") eq_refl ltac:(constructor)
                ltac:(right; split; vm_compute; reflexivity))
      as [Hsettled _].
    apply Hsettled. right. left. reflexivity.
  - destruct (read_error_handling (MF := Sample.MF) (UC := Sample.ucanto)
                (Sample.respond Sample.overtakenStream) Sample.subject None
                {| response_ok := true; status := "200"; text := "";
                   body := Some Sample.overtakenStream |}
                Sample.overtakenStream eq_refl eq_refl eq_refl)
      as (Hrejected & _).
    destruct (Hrejected [] (Sample.hashed [9]) [] []
                (mkError "failed to decode claim") eq_refl ltac:(constructor)
                ltac:(right; split; vm_compute; reflexivity))
      as [_ Hovertaken].
    apply (Hovertaken {| reason := mkError END_OF_DATA; during_write := true |});
      reflexivity.
  - destruct (read_error_handling (MF := Sample.MF) (UC := Sample.ucanto)
                (Sample.respond Sample.lateOvertakenStream) Sample.subject None
                {| response_ok := true; status := "200"; text := "";
                   body := Some Sample.lateOvertakenStream |}
                Sample.lateOvertakenStream eq_refl eq_refl eq_refl)
      as (Hrejected & _).
    destruct (Hrejected [Sample.hashed [2]] (Sample.hashed [9]) []
                [Sample.equalsDecoded]
                (mkError "failed to decode claim") eq_refl
                ltac:(constructor; [split; vm_compute; reflexivity | constructor])
                ltac:(right; split; vm_compute; reflexivity))
      as [_ Hovertaken].
    apply (Hovertaken {| reason := mkError END_OF_DATA; during_write := true |}
             eq_refl eq_refl eq_refl).
    left. discriminate.
Defined.



End ClientFacts.

(** * Further properties *)

(** ** Splitting and joining *)

Lemma includes_app (a b : string) (c : ascii) :
  Str.includes (a +:+ b) c = Str.includes a c || Str.includes b c.
Proof.
  induction a as [|x a IH]; [reflexivity |].
  rewrite app_String. cbn [Str.includes]. rewrite IH, orb_assoc. reflexivity.
Qed.

(** Splitting at a separator splits both sides of it. *)
Lemma split_app_sep (sep : ascii) (a b : string) :
  Str.split sep (a +:+ String sep b) = Str.split sep a ++ Str.split sep b.
Proof.
  induction a as [|x a IH].
  - change (EmptyString +:+ String sep b) with (String sep b).
    cbn [Str.split]. rewrite Ascii.eqb_refl. reflexivity.
  - rewrite app_String. cbn [Str.split]. rewrite IH.
    destruct (Ascii.eqb x sep); [reflexivity |].
    pose proof (split_nonempty sep a) as Hne.
    destruct (Str.split sep a) as [|piece pieces]; [contradiction | reflexivity].
Qed.

(** A string without the separator is its own single piece. *)
Lemma split_free (sep : ascii) (a : string) :
  Str.includes a sep = false -> Str.split sep a = [a].
Proof.
  induction a as [|x a IH]; [reflexivity |].
  cbn [Str.includes Str.split]. intros H. apply orb_false_iff in H as [Hx Ha].
  rewrite Hx, (IH Ha). reflexivity.
Qed.

(** Splitting what was joined gives the pieces back, when there is a piece
    and no piece holds the separator. *)
Lemma split_join (sep : ascii) (pieces : list string) :
  pieces <> [] ->
  Forall (fun piece => Str.includes piece sep = false) pieces ->
  Str.split sep (Str.join (String sep EmptyString) pieces) = pieces.
Proof.
  induction pieces as [|piece pieces IH]; [contradiction |].
  intros _ Hfree. apply Forall_cons in Hfree as [Hpiece Hfree].
  destruct pieces as [|next pieces].
  - apply split_free, Hpiece.
  - change (Str.join (String sep EmptyString) (piece :: next :: pieces))
      with (piece +:+ String sep (Str.join (String sep EmptyString) (next :: pieces))).
    rewrite split_app_sep, (split_free _ _ Hpiece), IH by (discriminate || assumption).
    reflexivity.
Qed.

(** ** More on the resolver *)

Module ResolverFacts.
Import BlockIndex.

(** X1. A path [region/bucket/key] is taken apart into just these: the
    region and the bucket are the first two segments, and the key is all
    the rest, slashes included. *)
Theorem normalize_region_bucket_key (r b k : string) (off len : Z) :
  Str.includes r "/" = false ->
  Str.includes b "/" = false ->
  normalize {| carpath := r +:+ "/" +:+ b +:+ "/" +:+ k;
               record_offset := off; record_length := len |}
  = {| region := Some r; bucket := Some b; key := k; offset := off; length := len |}.
Proof.
  intros Hr Hb. unfold normalize. cbn [carpath record_offset record_length].
  change (r +:+ "/" +:+ b +:+ "/" +:+ k) with (r +:+ String "/" (b +:+ String "/" k)).
  rewrite !split_app_sep, (split_free _ _ Hr), (split_free _ _ Hb).
  cbn [app head tail]. rewrite (join_split "/" k). reflexivity.
Qed.

Lemma normalize_region_bucket_key_witness :
  normalize {| carpath := "us-west-2/carpark-prod-0/raw/bagbaiera.car";
               record_offset := 100; record_length := 50 |}
  = {| region := Some "us-west-2"; bucket := Some "carpark-prod-0";
       key := "raw/bagbaiera.car"; offset := 100; length := 50 |}.
Proof.
  exact (normalize_region_bucket_key "us-west-2" "carpark-prod-0" "raw/bagbaiera.car"
           100 50 eq_refl eq_refl).
Defined.

(** X2. A path of one segment has no bucket, and one of two segments has
    an empty key; the host of the location URL is then built from the
    word [undefined], or its path is empty. *)
Theorem normalize_short_path (r : string) (off len : Z) :
  Str.includes r "/" = false ->
  (normalize {| carpath := r; record_offset := off; record_length := len |}
   = {| region := Some r; bucket := None; key := ""; offset := off; length := len |} /\
   bucketString (normalize {| carpath := r; record_offset := off; record_length := len |})
   = "undefined") /\
  (forall b, Str.includes b "/" = false ->
     normalize {| carpath := r +:+ "/" +:+ b; record_offset := off; record_length := len |}
     = {| region := Some r; bucket := Some b; key := ""; offset := off; length := len |}).
Proof.
  intros Hr. unfold normalize, bucketString. cbn [carpath record_offset record_length].
  split.
  - rewrite (split_free _ _ Hr). split; reflexivity.
  - intros b Hb. change (r +:+ "/" +:+ b) with (r +:+ String "/" b).
    rewrite split_app_sep, (split_free _ _ Hr), (split_free _ _ Hb). reflexivity.
Qed.

Lemma normalize_short_path_witness :
  bucket (normalize {| carpath := "orphan"; record_offset := 1; record_length := 2 |})
  = None /\
  key (normalize {| carpath := "us-west-2/carpark-prod-0";
                    record_offset := 1; record_length := 2 |}) = "".
Proof.
  destruct (normalize_short_path "orphan" 1 2 eq_refl) as [[Hnone _] _].
  destruct (normalize_short_path "us-west-2" 1 2 eq_refl) as [_ Hshort].
  split.
  - rewrite Hnone. reflexivity.
  - exact (f_equal key (Hshort "carpark-prod-0" eq_refl)).
Defined.

Section Keys.
Context `{MF : Multiformats}.

(** The part depends on the key only through [keyHash]. *)
Lemma bucketKeyToPartCID_keyHash (key key' : string) :
  keyHash key = keyHash key' -> bucketKeyToPartCID key = bucketKeyToPartCID key'.
Proof. unfold bucketKeyToPartCID. intros ->. reflexivity. Qed.

(** X3. The directories of a key and the extensions of its filename do not
    matter: the part of [dir/stem.ext] is the part of [stem]. *)
Theorem part_ignores_directory_and_extension (dir stem ext : string) :
  Str.includes stem "/" = false ->
  Str.includes stem "." = false ->
  Str.includes ext "/" = false ->
  keyHash (dir +:+ "/" +:+ stem +:+ "." +:+ ext) = stem /\
  keyHash (stem +:+ "." +:+ ext) = stem /\
  keyHash (dir +:+ "/" +:+ stem) = stem /\
  bucketKeyToPartCID (dir +:+ "/" +:+ stem +:+ "." +:+ ext) = bucketKeyToPartCID stem.
Proof.
  intros Hslash Hdot Hext.
  assert (Hfile : Str.includes (stem +:+ String "." ext) "/" = false).
  { rewrite includes_app. cbn [Str.includes]. rewrite Hslash, Hext. reflexivity. }
  assert (H1 : keyHash (dir +:+ "/" +:+ stem +:+ "." +:+ ext) = stem).
  { unfold keyHash.
    change (dir +:+ "/" +:+ stem +:+ "." +:+ ext)
      with (dir +:+ String "/" (stem +:+ String "." ext)).
    rewrite split_app_sep, (split_free _ _ Hfile), last_snoc. cbn [from_option id].
    rewrite split_app_sep, (split_free _ _ Hdot). reflexivity. }
  assert (H2 : keyHash (stem +:+ "." +:+ ext) = stem).
  { unfold keyHash. change (stem +:+ "." +:+ ext) with (stem +:+ String "." ext).
    rewrite (split_free _ _ Hfile). cbn [last from_option id].
    rewrite split_app_sep, (split_free _ _ Hdot). reflexivity. }
  assert (H3 : keyHash (dir +:+ "/" +:+ stem) = stem).
  { unfold keyHash. change (dir +:+ "/" +:+ stem) with (dir +:+ String "/" stem).
    rewrite split_app_sep, (split_free _ _ Hslash), last_snoc. cbn [from_option id].
    rewrite (split_free _ _ Hdot). reflexivity. }
  assert (H4 : keyHash stem = stem).
  { unfold keyHash. rewrite (split_free _ _ Hslash). cbn [last from_option id].
    rewrite (split_free _ _ Hdot). reflexivity. }
  repeat split; try assumption.
  apply bucketKeyToPartCID_keyHash. rewrite H1, H4. reflexivity.
Qed.

(** X4. A part is always a version 1 CID of the CAR codec, and a CAR CID in
    the filename wins: it is the part whatever the filename would decode
    to as base32; when the filename is no CAR CID, the part is the CAR
    link over the multihash decoded from it. *)
Theorem part_is_car_cid_first (key : string) :
  (forall parsed cid,
     Link_parse (keyHash key) = Ok parsed -> Link.toV1 parsed = Ok cid ->
     cid_code cid = CAR_CODE ->
     bucketKeyToPartCID key = Some cid) /\
  (forall part,
     bucketKeyToPartCID key = Some part ->
     cid_code part = CAR_CODE /\ cid_version part = 1 /\
     (partOfCID (keyHash key) = Ok part \/
      is_Throw (partOfCID (keyHash key)) /\
      exists digestBytes digest,
        fromString_base32 (keyHash key) = Ok digestBytes /\
        Digest_decode digestBytes = Ok digest /\
        part = Link.create CAR_CODE digest)).
Proof.
  split.
  - intros parsed cid Hparse Hv1 Hcar. unfold bucketKeyToPartCID, partOfCID. cbv zeta.
    rewrite (bind_Ok _ _ _ Hparse), (bind_Ok _ _ _ Hv1).
    apply Z.eqb_eq in Hcar. rewrite Hcar. reflexivity.
  - intros part Hpart.
    destruct (BlockIndexFacts.bucketKeyToPartCID_car _ _ Hpart) as [Hcode Hversion].
    split; [exact Hcode |]. split; [exact Hversion |].
    unfold bucketKeyToPartCID in Hpart. cbv zeta in Hpart.
    destruct (partOfCID (keyHash key)) as [cid|e] eqn:Hcid.
    + left. congruence.
    + right. split; [eexists; reflexivity |].
      unfold partOfMultihash in Hpart.
      destruct (fromString_base32 (keyHash key)) as [bs|?]; cbn in Hpart;
        [| discriminate].
      destruct (Digest_decode bs) as [d|?] eqn:Hd; cbn in Hpart; [| discriminate].
      exists bs, d. repeat split; [exact Hd | congruence].
Qed.

End Keys.

Lemma part_ignores_directory_and_extension_witness :
  bucketKeyToPartCID (MF := Sample.MF) "raw/bafy/315318734258452893/ciqa.car.idx"
  = bucketKeyToPartCID (MF := Sample.MF) "ciqa".
Proof.
  exact (proj2 (proj2 (proj2
    (part_ignores_directory_and_extension (MF := Sample.MF)
       "raw/bafy/315318734258452893" "ciqa" "car.idx" eq_refl eq_refl eq_refl)))).
Defined.

(** The fallback to the head leaves no selection only on the empty list. *)
Lemma selectItem_None_nil (items : list Item) :
  selectItem items = None -> items = [].
Proof.
  unfold selectItem, nullish.
  destruct (find (inBucket "carpark-prod-0") items); [discriminate |].
  destruct (find (inBucketRaw "dotstorage-prod-1") items); [discriminate |].
  destruct (find (inBucketRaw "dotstorage-prod-0") items); [discriminate |].
  destruct items; [reflexivity | discriminate].
Qed.

(** X5. The selection invents nothing and gives up only on an empty list:
    what it selects is one of the candidates, and it selects none exactly
    when there is none. *)
Theorem selectItem_member (items : list Item) :
  (forall item, selectItem items = Some item -> item ∈ items) /\
  (selectItem items = None <-> items = []).
Proof.
  unfold selectItem, nullish. split.
  - intros item.
    destruct (find (inBucket "carpark-prod-0") items) as [c|] eqn:Hc;
      [intros [= <-]; apply list_elem_of_In; exact (proj1 (find_some _ _ Hc)) |].
    destruct (find (inBucketRaw "dotstorage-prod-1") items) as [c|] eqn:H1;
      [intros [= <-]; apply list_elem_of_In; exact (proj1 (find_some _ _ H1)) |].
    destruct (find (inBucketRaw "dotstorage-prod-0") items) as [c|] eqn:H0;
      [intros [= <-]; apply list_elem_of_In; exact (proj1 (find_some _ _ H0)) |].
    destruct items as [|x items]; [discriminate |].
    intros [= <-]. apply list_elem_of_here.
  - split.
    + destruct (find (inBucket "carpark-prod-0") items); [discriminate |].
      destruct (find (inBucketRaw "dotstorage-prod-1") items); [discriminate |].
      destruct (find (inBucketRaw "dotstorage-prod-0") items); [discriminate |].
      destruct items; [reflexivity | discriminate].
    + intros ->. reflexivity.
Qed.

(** The framing overhead grows with the value. *)
Lemma encodingLength_monotone (a b : Z) :
  a <= b -> Varint.encodingLength a <= Varint.encodingLength b.
Proof.
  intros Hab. unfold Varint.encodingLength, Varint.N1, Varint.N2, Varint.N3,
    Varint.N4, Varint.N5, Varint.N6, Varint.N7, Varint.N8, Varint.N9.
  repeat match goal with
  | |- context [?x <? ?y] => destruct (Z.ltb_spec x y)
  end; lia.
Qed.

Lemma encodingLength_range (a : Z) : 1 <= Varint.encodingLength a <= 10.
Proof.
  unfold Varint.encodingLength.
  repeat match goal with
  | |- context [?x <? ?y] => destruct (x <? y)
  end; lia.
Qed.

(** X6. The corrected offset lies between eleven and two octets (one to
    ten of varint, and the identifier) below the raw offset less the
    identifier's length; a longer value never gives a later offset; and
    moving the value moves the frame with it. *)
Theorem carOffset_bounds (subject : Link) (off len : Z) :
  off - (Z.of_nat (List.length (cid_bytes subject)) + 10)
    <= carOffset subject off len
    <= off - (Z.of_nat (List.length (cid_bytes subject)) + 1) /\
  (forall len', len <= len' -> carOffset subject off len' <= carOffset subject off len) /\
  (forall d, carOffset subject (off + d) len = carOffset subject off len + d).
Proof.
  unfold carOffset. split; [| split].
  - pose proof (encodingLength_range
                  (Z.of_nat (List.length (cid_bytes subject)) + len)). lia.
  - intros len' Hle.
    pose proof (encodingLength_monotone
                  (Z.of_nat (List.length (cid_bytes subject)) + len)
                  (Z.of_nat (List.length (cid_bytes subject)) + len')). lia.
  - intros d. lia.
Qed.

Section Get.
Context `{MF : Multiformats} `{UC : Ucanto} `{PF : Platform}.

(** X7. With the query answered, [get] returns the empty list exactly when
    the index had no record: with a record it returns at least the
    location claim or it throws. *)
Theorem get_empty_iff_no_record (self : BlockIndexClaimFetcher) (now : Z)
    (subject : Link) (out : QueryOutput) :
  dynamoClient self (queryCommand self subject) = Ok out ->
  (get self now subject = Ok [] <-> default [] (Items out) = []).
Proof.
  intros Hq. split.
  - intros Hget.
    destruct (selectItem (normalize <$> default [] (Items out))) as [item|] eqn:Hsel.
    + rewrite (BlockIndexFacts.get_selected _ _ _ _ _ Hq Hsel) in Hget.
      apply bind_Ok_inv in Hget as (href & _ & Hget).
      apply bind_Ok_inv in Hget as (loc & _ & Hget).
      apply bind_Ok_inv in Hget as (rels & _ & Hget). discriminate Hget.
    + apply selectItem_None_nil, fmap_nil_inv in Hsel. exact Hsel.
  - intros Hnone. unfold get. rewrite (bind_Ok _ _ _ Hq). cbv zeta.
    rewrite Hnone. reflexivity.
Qed.

(** X8. Whatever [get] returns is about the content that was asked for:
    at most two claims, each carrying the multihash of the subject, the
    same expiration an hour from [now], the service's DID as resource and
    the subject as [content]; the first is a location claim and the
    second, if any, a relation claim. *)
Theorem get_claims_about_subject (self : BlockIndexClaimFetcher) (now : Z)
    (subject : Link) (claims : list Claim) :
  get self now subject = Ok claims ->
  (List.length claims <= 2)%nat /\
  (forall c, c ∈ claims ->
     claim_content c = cid_multihash subject /\
     claim_expiration c = expiresAt now /\
     exists cap, value c = Some cap /\ with_ cap = did (signer self) /\
                 nb_field "content" cap = Some (VLink subject)) /\
  (forall c rest, claims = c :: rest ->
     can <$> value c = Some Assert.location_can /\
     Forall (fun r => can <$> value r = Some Assert.relation_can) rest).
Proof.
  intros Hget.
  apply BlockIndexFacts.get_Ok_inv in Hget
    as [-> | (item & href & loc & Hloc & Hclaims)].
  { split; [cbn; lia |]. split; [intros c Hc; apply elem_of_nil in Hc; contradiction |].
    intros c rest [=]. }
  apply BlockIndexFacts.buildLocationClaim_Ok in Hloc as (Hlv & Hlc & Hle).
  assert (Hlocation :
            claim_content loc = cid_multihash subject /\
            claim_expiration loc = expiresAt now /\
            exists cap, value loc = Some cap /\ with_ cap = did (signer self) /\
                        nb_field "content" cap = Some (VLink subject)).
  { repeat split; try assumption. eexists. split; [exact Hlv |]. split; reflexivity. }
  destruct Hclaims as [-> | (part & rel & _ & Hrel & ->)].
  - split; [cbn; lia |]. split.
    + intros c Hc. apply list_elem_of_singleton in Hc as ->. exact Hlocation.
    + intros c rest [= <- <-]. rewrite Hlv. split; [reflexivity | constructor].
  - apply BlockIndexFacts.buildRelationClaim_Ok in Hrel as (Hrv & Hrc & Hre).
    split; [cbn; lia |]. split.
    + intros c Hc. apply elem_of_cons in Hc as [-> | Hc]; [exact Hlocation |].
      apply list_elem_of_singleton in Hc as ->.
      repeat split; try assumption. eexists. split; [exact Hrv |]. split; reflexivity.
    + intros c rest [= <- <-]. rewrite Hlv. split; [reflexivity |].
      constructor; [rewrite Hrv; reflexivity | constructor].
Qed.

(** X9. A failure of the query (after its retries) or of the URL
    constructor is the failure of [get]: the error is passed on as it
    is. *)
Theorem get_query_or_url_failure (self : BlockIndexClaimFetcher) (now : Z)
    (subject : Link) (e : Error) :
  dynamoClient self (queryCommand self subject) = Throw e \/
  (exists out item,
     dynamoClient self (queryCommand self subject) = Ok out /\
     selectItem (normalize <$> default [] (Items out)) = Some item /\
     URL_toString ("https://" +:+ bucketString item +:+ ".s3.amazonaws.com/" +:+ key item)
       = Throw e) ->
  get self now subject = Throw e.
Proof.
  intros [Hq | (out & item & Hq & Hsel & Hurl)].
  - unfold get. rewrite (bind_Throw _ _ _ Hq). reflexivity.
  - rewrite (BlockIndexFacts.get_selected _ _ _ _ _ Hq Hsel), (bind_Throw _ _ _ Hurl).
    reflexivity.
Qed.

(** [buildClaim] when the archive cannot be made. *)
Lemma buildClaim_not_archived (subject : Link) (invocation : Invocation) :
  is_Throw (archive (buildIPLDView invocation)) ->
  buildClaim subject invocation = Throw (mkError "failed to archive invocation").
Proof. intros [e He]. unfold buildClaim. rewrite He. reflexivity. Qed.

(** X10. [get] is all or nothing: when the archive of the location claim
    cannot be made, or there is a part and the archive of the relation
    claim cannot be made, [get] throws [failed to archive invocation], and
    the claim that could be built is not returned. *)
Theorem get_archive_failure (self : BlockIndexClaimFetcher) (now : Z)
    (subject : Link) (out : QueryOutput) (item : Item) (href : string) :
  dynamoClient self (queryCommand self subject) = Ok out ->
  selectItem (normalize <$> default [] (Items out)) = Some item ->
  URL_toString ("https://" +:+ bucketString item +:+ ".s3.amazonaws.com/" +:+ key item)
    = Ok href ->
  is_Throw (archive (buildIPLDView
              (locationInvocation (signer self) subject [href] (offset item) (length item)
                 (Some (expiresAt now))))) \/
  (exists part,
     bucketKeyToPartCID (key item) = Some part /\
     is_Throw (archive (buildIPLDView
                 (relationInvocation (signer self) subject part (offset item) (length item)
                    (Some (expiresAt now)))))) ->
  get self now subject = Throw (mkError "failed to archive invocation").
Proof.
  intros Hq Hsel Hurl Hfail.
  rewrite (BlockIndexFacts.get_selected _ _ _ _ _ Hq Hsel), (bind_Ok _ _ _ Hurl).
  destruct (buildLocationClaim (signer self) subject [href] (offset item) (length item)
              (Some (expiresAt now))) as [loc|e] eqn:Hloc.
  - destruct Hfail as [Hl | (part & Hpart & Hr)].
    + unfold buildLocationClaim in Hloc.
      rewrite (buildClaim_not_archived _ _ Hl) in Hloc. discriminate Hloc.
    + cbn [mbind result_bind]. rewrite Hpart.
      unfold buildRelationClaim. rewrite (buildClaim_not_archived _ _ Hr). reflexivity.
  - cbn [mbind result_bind]. unfold buildLocationClaim, buildClaim in Hloc.
    destruct (archive _) in Hloc; [discriminate | congruence].
Qed.

(** X19. Only the selected candidate counts: two answers of the index
    with the same selection give the same claims, or the same failure,
    whatever else they hold. *)
Theorem get_uses_selected_item_only (self self' : BlockIndexClaimFetcher) (now : Z)
    (subject : Link) (out out' : QueryOutput) :
  dynamoClient self (queryCommand self subject) = Ok out ->
  dynamoClient self' (queryCommand self' subject) = Ok out' ->
  signer self = signer self' ->
  selectItem (normalize <$> default [] (Items out))
  = selectItem (normalize <$> default [] (Items out')) ->
  get self now subject = get self' now subject.
Proof.
  intros Hq Hq' Hsigner Hsame.
  destruct (selectItem (normalize <$> default [] (Items out))) as [item|] eqn:Hsel.
  - symmetry in Hsame.
    rewrite (BlockIndexFacts.get_selected _ _ _ _ _ Hq Hsel),
      (BlockIndexFacts.get_selected _ _ _ _ _ Hq' Hsame), Hsigner.
    reflexivity.
  - unfold get. rewrite (bind_Ok _ _ _ Hq), (bind_Ok _ _ _ Hq'). cbv zeta.
    rewrite Hsel, <- Hsame. reflexivity.
Qed.

End Get.

Lemma get_empty_iff_no_record_witness :
  get (MF := Sample.MF) (UC := Sample.ucanto) (PF := Sample.PF)
    Sample.fetcher Sample.now Sample.subject <> Ok [].
Proof.
  intros Hempty.
  apply (get_empty_iff_no_record (MF := Sample.MF) (UC := Sample.ucanto)
           (PF := Sample.PF) Sample.fetcher Sample.now Sample.subject
           {| Items := Some [
                {| carpath := "us-east-2/dotstorage-prod-1/raw/bafy/315318734258452893/ciqa.car";
                   record_offset := 3000; record_length := 50 |};
                {| carpath := "us-west-2/carpark-prod-0/raw/bagbaiera.car";
                   record_offset := 100; record_length := 50 |} ] |}
           eq_refl) in Hempty.
  discriminate Hempty.
Defined.

Lemma get_claims_about_subject_witness :
  Forall (fun c => claim_content c = cid_multihash Sample.subject /\
                   claim_expiration c = 1700003601)
    [Sample.locationClaim; Sample.relationClaim].
Proof.
  destruct (get_claims_about_subject (MF := Sample.MF) (UC := Sample.ucanto)
              (PF := Sample.PF) Sample.fetcher Sample.now Sample.subject
              [Sample.locationClaim; Sample.relationClaim])
    as (_ & Hall & _).
  - vm_compute. reflexivity.
  - apply Forall_forall. intros c Hc.
    destruct (Hall c Hc) as (Hcontent & Hexpires & _).
    split; [exact Hcontent | exact Hexpires].
Defined.

Lemma get_query_or_url_failure_witness :
  get (MF := Sample.MF) (UC := Sample.ucanto) (PF := Sample.PF)
    Sample.downFetcher Sample.now Sample.subject
  = Throw (mkError "ProvisionedThroughputExceededException").
Proof.
  apply (get_query_or_url_failure (MF := Sample.MF) (UC := Sample.ucanto)
           (PF := Sample.PF)).
  left. reflexivity.
Defined.

Lemma get_uses_selected_item_only_witness :
  get (MF := Sample.MF) (UC := Sample.ucanto) (PF := Sample.PF)
    Sample.fetcher Sample.now Sample.subject
  = get (MF := Sample.MF) (UC := Sample.ucanto) (PF := Sample.PF)
      Sample.currentFetcher Sample.now Sample.subject.
Proof.
  apply (get_uses_selected_item_only (MF := Sample.MF) (UC := Sample.ucanto)
           (PF := Sample.PF) Sample.fetcher Sample.currentFetcher Sample.now
           Sample.subject
           {| Items := Some [
                {| carpath := "us-east-2/dotstorage-prod-1/raw/bafy/315318734258452893/ciqa.car";
                   record_offset := 3000; record_length := 50 |};
                {| carpath := "us-west-2/carpark-prod-0/raw/bagbaiera.car";
                   record_offset := 100; record_length := 50 |} ] |}
           {| Items := Some [
                {| carpath := "us-west-2/carpark-prod-0/raw/bagbaiera.car";
                   record_offset := 100; record_length := 50 |} ] |}).
  - reflexivity.
  - reflexivity.
  - reflexivity.
  - vm_compute. reflexivity.
Defined.

Lemma get_archive_failure_witness :
  get (MF := Sample.MF) (UC := Sample.halfUcanto) (PF := Sample.PF)
    Sample.fetcher Sample.now Sample.subject
  = Throw (mkError "failed to archive invocation").
Proof.
  apply (get_archive_failure (MF := Sample.MF) (UC := Sample.halfUcanto)
           (PF := Sample.PF) Sample.fetcher Sample.now Sample.subject
           {| Items := Some [
                {| carpath := "us-east-2/dotstorage-prod-1/raw/bafy/315318734258452893/ciqa.car";
                   record_offset := 3000; record_length := 50 |};
                {| carpath := "us-west-2/carpark-prod-0/raw/bagbaiera.car";
                   record_offset := 100; record_length := 50 |} ] |}
           {| region := Some "us-west-2"; bucket := Some "carpark-prod-0";
              key := "raw/bagbaiera.car"; offset := 100; length := 50 |}
           "https://carpark-prod-0.s3.amazonaws.com/raw/bagbaiera.car").
  - reflexivity.
  - vm_compute. reflexivity.
  - reflexivity.
  - right. exists Sample.carLink. split; [vm_compute; reflexivity |].
    eexists. vm_compute. reflexivity.
Defined.

End ResolverFacts.

(** ** More on the client *)

Module ReaderFacts.
Import Client.

Lemma claimType_known (can : string) :
  can ∈ [Assert.location_can; Assert.partition_can; Assert.inclusion_can;
         Assert.relation_can; Assert.equals_can; "unknown"] ->
  claimType can = can.
Proof.
  intros Hin. unfold claimType.
  repeat (case_bool_decide; [congruence |]).
  repeat (apply elem_of_cons in Hin as [-> | Hin]; [congruence |]).
  apply elem_of_nil in Hin. contradiction.
Qed.

Lemma claimType_range (can : string) :
  claimType can ∈ [Assert.location_can; Assert.partition_can; Assert.inclusion_can;
                   Assert.relation_can; Assert.equals_can; "unknown"].
Proof.
  unfold claimType. repeat (case_bool_decide; [set_solver |]). set_solver.
Qed.

Section Decoder.
Context `{UC : Ucanto}.

(** What [decode] did, when it returns. *)
Lemma decode_Ok_inv (bytes : bytes) (c : Claim) :
  decode bytes = Ok c ->
  exists d cap m,
    extract bytes = Ok d /\
    head (delegation_capabilities d) = Some cap /\
    nb cap = Some (VMap m) /\
    is_Some (m !! "content") /\
    c = {| props := spread (VMap m) (claimType (can cap));
           export_ := d; archive_ := bytes |}.
Proof.
  unfold decode. destruct (extract bytes) as [d|?] eqn:Hx; [| discriminate].
  destruct (head (delegation_capabilities d)) as [cap|] eqn:Hcap; [| discriminate].
  destruct (_ || _) eqn:Hguard; [discriminate |].
  apply ClientFacts.guard_content in Hguard as (m & Hnb & Hcontent).
  rewrite Hnb. intros [= <-]. exists d, cap, m. auto.
Qed.

(** X11. Every claim [decode] returns has a [content], a [type] that is
    one of the five kinds or [unknown] and is derived from the
    capability's kind, never taken from the named parameters, no data
    property called [export] or [archive], the very bytes it was decoded
    from as its archive, and the delegation extracted from them as its
    export. *)
Theorem decoded_claim_invariant (bytes : bytes) (c : Claim) :
  decode bytes = Ok c ->
  archive_ c = bytes /\
  extract bytes = Ok (export_ c) /\
  props c !! "export" = None /\
  props c !! "archive" = None /\
  exists cap kind,
    head (delegation_capabilities (export_ c)) = Some cap /\
    props c !! "content" = nb_field "content" cap /\
    is_Some (props c !! "content") /\
    type c = Some (VStr kind) /\
    kind = claimType (can cap) /\
    kind ∈ [Assert.location_can; Assert.partition_can; Assert.inclusion_can;
            Assert.relation_can; Assert.equals_can; "unknown"].
Proof.
  intros Hdecode.
  apply decode_Ok_inv in Hdecode as (d & cap & m & Hx & Hcap & Hnb & Hcontent & ->).
  cbn [archive_ export_ props]. unfold type. cbn [props].
  split; [reflexivity |]. split; [exact Hx |].
  split; [unfold spread; rewrite lookup_insert_ne, lookup_delete_ne, lookup_delete_eq
            by discriminate; reflexivity |].
  split; [unfold spread; rewrite lookup_insert_ne, lookup_delete_eq
            by discriminate; reflexivity |].
  exists cap, (claimType (can cap)).
  assert (Hc : spread (VMap m) (claimType (can cap)) !! "content" = m !! "content")
    by (apply ClientFacts.spread_other; discriminate).
  split; [exact Hcap |].
  split; [unfold nb_field; rewrite Hnb; exact Hc |].
  split; [rewrite Hc; exact Hcontent |].
  split; [apply ClientFacts.spread_type |].
  split; [reflexivity | apply claimType_range].
Qed.

(** X12. The type of a decoded claim is the kind of its capability exactly
    when the kind is one of the five (or is itself the word [unknown]);
    any other kind is hidden behind [unknown]. *)
Theorem decoded_type_is_kind (bytes : bytes) (d : Delegation) (cap : Capability)
    (c : Claim) :
  extract bytes = Ok d ->
  head (delegation_capabilities d) = Some cap ->
  decode bytes = Ok c ->
  (type c = Some (VStr (can cap)) <->
   can cap ∈ [Assert.location_can; Assert.partition_can; Assert.inclusion_can;
              Assert.relation_can; Assert.equals_can; "unknown"]).
Proof.
  intros Hx Hcap Hdecode.
  apply decode_Ok_inv in Hdecode as (d' & cap' & m & Hx' & Hcap' & _ & _ & ->).
  assert (d' = d) as -> by congruence. assert (cap' = cap) as -> by congruence.
  unfold type. cbn [props]. rewrite ClientFacts.spread_type. split.
  - intros [= Hkind]. rewrite <- Hkind. apply claimType_range.
  - intros Hin. rewrite (claimType_known _ Hin). reflexivity.
Qed.

(** X13. The error of [decode] tells which step failed: [failed to decode
    claim] when the bytes do not extract, a TypeError when the delegation
    has no capability, and [invalid claim] when the first capability has
    no [content] among its named parameters. *)
Theorem decode_error_cause (bytes : bytes) (e : Error) :
  decode bytes = Throw e ->
  (is_Throw (extract bytes) /\ message e = "failed to decode claim") \/
  (exists d, extract bytes = Ok d /\ delegation_capabilities d = [] /\
             message e = "Cannot read properties of undefined (reading 'nb')") \/
  (exists d cap, extract bytes = Ok d /\
                 head (delegation_capabilities d) = Some cap /\
                 nb_field "content" cap = None /\
                 message e = "invalid claim").
Proof.
  unfold decode. destruct (extract bytes) as [d|x] eqn:Hx.
  - destruct (delegation_capabilities d) as [|cap caps] eqn:Hcaps; cbn [head].
    + intros [= <-]. right. left. exists d. auto.
    + destruct (_ || _) eqn:Hguard; [| discriminate].
      intros [= <-]. right. right. exists d, cap.
      split; [reflexivity |]. split; [rewrite Hcaps; reflexivity |].
      split; [| reflexivity].
      destruct (nb_field "content" cap) as [v|] eqn:Hfield; [| reflexivity].
      assert (Hok : exists m, nb cap = Some (VMap m) /\ is_Some (m !! "content")).
      { unfold nb_field in Hfield.
        destruct (nb cap) as [[| | | | | | | m]|]; try discriminate. eauto. }
      apply ClientFacts.guard_content in Hok. congruence.
  - intros [= <-]. left. split; [eexists; reflexivity | reflexivity].
Qed.

End Decoder.

Lemma decoded_claim_invariant_witness :
  exists c,
    decode (UC := Sample.ucanto) [2] = Ok c /\
    archive_ c = [2] /\ type c = Some (VStr "assert/equals").
Proof.
  destruct (decoded_claim_invariant (UC := Sample.ucanto) [2] Sample.equalsDecoded)
    as (Harchive & _ & _ & _ & cap & kind & Hcap & _ & _ & Htype & Hkind & _).
  - vm_compute. reflexivity.
  - exists Sample.equalsDecoded. split; [vm_compute; reflexivity |].
    split; [exact Harchive |]. reflexivity.
Defined.

Lemma decoded_type_is_kind_witness :
  type Sample.equalsDecoded = Some (VStr "assert/equals").
Proof.
  apply (decoded_type_is_kind (UC := Sample.ucanto) [2] Sample.equalsView
           {| can := Assert.equals_can; with_ := did Sample.service;
              nb := Some (VMap (<["content" := VLink Sample.subject]>
                               (<["equals" := VLink Sample.other]> ∅))) |}
           Sample.equalsDecoded).
  - reflexivity.
  - reflexivity.
  - vm_compute. reflexivity.
  - set_solver.
Defined.

Lemma decode_error_cause_witness :
  exists e, decode (UC := Sample.ucanto) [9] = Throw e /\
            message e = "failed to decode claim".
Proof.
  exists (mkError "failed to decode claim"). split; [reflexivity |].
  destruct (decode_error_cause (UC := Sample.ucanto) [9]
              (mkError "failed to decode claim") eq_refl)
    as [[_ Hmsg] | [(d & Hx & _) | (d & cap & Hx & _)]];
    [exact Hmsg | discriminate Hx | discriminate Hx].
Defined.

Section Reader.
Context `{MF : Multiformats} `{UC : Ucanto}.
Variable globalThis_fetch : Request -> result Response.


End Reader.

(** X15. [fetch] asks for [/claims/<cid>] at the given service, or at
    [claims.web3.storage] when none is given.  It sets [walk] exactly when
    the option is there; the parameter splits at its commas into the list
    that was given when that list is not empty, and an empty list still
    sets the parameter, to the empty string. *)
Theorem fetch_request `{MF : Multiformats} (content : Link)
    (options : option FetchOptions) :
  exists request,
    (forall globalThis_fetch,
       fetch globalThis_fetch content options = globalThis_fetch request) /\
    request_path request = "/claims/" +:+ Link_toString content /\
    request_base request = default "https://claims.web3.storage" (options ≫= serviceURL) /\
    (request_walk request = None <-> options ≫= walk = None) /\
    (forall names,
       options ≫= walk = Some names -> names <> [] ->
       Forall (fun name => Str.includes name "," = false) names ->
       Str.split "," <$> request_walk request = Some names) /\
    (options ≫= walk = Some [] -> request_walk request = Some "").
Proof.
  eexists. split; [intros gf; reflexivity |]. cbn [request_path request_base request_walk].
  split; [reflexivity |]. split; [reflexivity |].
  destruct (options ≫= walk) as [names|]; cbn [fmap option_fmap option_map].
  - split; [split; discriminate |]. split.
    + intros ? [= <-] Hne Hfree. f_equal. exact (split_join "," names Hne Hfree).
    + intros [= ->]. reflexivity.
  - split; [split; reflexivity |]. split; [discriminate | discriminate].
Qed.


End ReaderFacts.

(** ** From the resolver to the client *)

Module RoundTrip.
Import BlockIndex.

Section Archive.
Context `{MF : Multiformats} `{UC : Ucanto} `{PF : Platform} `{UA : !UcantoArchive}.

(** What the client decodes from the bytes of a record of [buildClaim]. *)
Lemma decode_buildClaim (subject : Link) (invocation : Invocation) (rec : Claim)
    (cap : Capability) (m : gmap string Value) :
  buildClaim subject invocation = Ok rec ->
  head (capabilities invocation) = Some cap ->
  nb cap = Some (VMap m) ->
  is_Some (m !! "content") ->
  Client.decode (claim_bytes rec)
  = Ok {| Client.props := Client.spread (VMap m) (Client.claimType (can cap));
          Client.export_ := buildIPLDView invocation;
          Client.archive_ := claim_bytes rec |}.
Proof.
  intros Hbuild Hcap Hnb Hcontent.
  apply BlockIndexFacts.buildClaim_Ok in Hbuild as (Harchive & _).
  apply (ClientFacts.decode_Ok _ _ cap m (extract_archive _ _ Harchive));
    assumption.
Qed.

(** X16. A location claim read back: the client decodes the bytes of the
    record of [buildLocationClaim] into a claim of type [assert/location]
    with the subject, the locations and the range that were signed, and no
    other property; its archive is those bytes, and the CID and the
    expiration of its delegation are the record's. *)
Theorem location_claim_roundtrip (signer : Signer) (subject : Link)
    (location : list string) (off len : Z) (expiration : option Z) (rec : Claim) :
  buildLocationClaim signer subject location off len expiration = Ok rec ->
  exists c,
    Client.decode (claim_bytes rec) = Ok c /\
    Client.props c =
      <["type" := VStr "assert/location"]>
        (<["content" := VLink subject]>
        (<["location" := VList (VStr <$> location)]>
        (<["range" := VMap (<["offset" := VNum off]> (<["length" := VNum len]> ∅))]> ∅))) /\
    Client.archive_ c = claim_bytes rec /\
    delegation_cid (Client.export_ c) = claim rec /\
    delegation_expiration (Client.export_ c) = claim_expiration rec.
Proof.
  intros Hbuild. eexists.
  split; [apply (decode_buildClaim _ _ _ _ _ Hbuild eq_refl eq_refl);
          eexists; reflexivity |].
  apply BlockIndexFacts.buildClaim_Ok in Hbuild as (_ & Hcid & _ & Hexp & _).
  cbn [Client.props Client.archive_ Client.export_].
  split; [reflexivity |]. split; [reflexivity |]. split; congruence.
Qed.

(** X17. A relation claim read back: the client decodes the bytes of the
    record of [buildRelationClaim] into a claim of type [assert/relation]
    with the subject, no children and the one part with its index, and
    the delegation it exports carries the index block itself. *)
Theorem relation_claim_roundtrip (signer : Signer) (subject part : Link)
    (off len : Z) (expiration : option Z) (rec : Claim) :
  buildRelationClaim signer subject part off len expiration = Ok rec ->
  exists c,
    Client.decode (claim_bytes rec) = Ok c /\
    Client.props c =
      <["type" := VStr "assert/relation"]>
        (<["content" := VLink subject]>
        (<["children" := VList []]>
        (<["parts" := VList [
             VMap (<["content" := VLink part]>
                  (<["includes" :=
                       VMap (<["content" :=
                                 VLink (block_cid (encodeIndex subject
                                                     (carOffset subject off len)))]> ∅)]> ∅))
           ]]> ∅))) /\
    Client.archive_ c = claim_bytes rec /\
    delegation_cid (Client.export_ c) = claim rec /\
    delegation_blocks (Client.export_ c)
    = [encodeIndex subject (carOffset subject off len)].
Proof.
  intros Hbuild. eexists.
  split; [apply (decode_buildClaim _ _ _ _ _ Hbuild eq_refl eq_refl);
          eexists; reflexivity |].
  apply BlockIndexFacts.buildClaim_Ok in Hbuild as (_ & Hcid & _).
  cbn [Client.props Client.archive_ Client.export_].
  split; [reflexivity |]. split; [reflexivity |]. split; [congruence | reflexivity].
Qed.

(** A block that carries the bytes of a record of [get] under their hash
    is accepted. *)
Lemma derived_claim_accepted (self : BlockIndexClaimFetcher) (now : Z)
    (subject : Link) (recs : list Claim) (rec : Claim) (block : Block) :
  get self now subject = Ok recs ->
  rec ∈ recs ->
  block_bytes block = claim_bytes rec ->
  Client.verified block ->
  exists c, Client.accepted block c /\ served subject rec c.
Proof.
  intros Hget Hin Hbytes Hverified.
  apply BlockIndexFacts.get_Ok_inv in Hget
    as [-> | (item & href & loc & Hloc & Hrecs)].
  { apply elem_of_nil in Hin. contradiction. }
  assert (Hcase :
            buildLocationClaim (signer self) subject [href] (offset item) (length item)
              (Some (expiresAt now)) = Ok rec \/
            exists part,
              buildRelationClaim (signer self) subject part (offset item) (length item)
                (Some (expiresAt now)) = Ok rec).
  { destruct Hrecs as [-> | (part & rel & _ & Hrel & ->)].
    - apply list_elem_of_singleton in Hin as ->. left. exact Hloc.
    - apply elem_of_cons in Hin as [-> | Hin]; [left; exact Hloc |].
      apply list_elem_of_singleton in Hin as ->. right. eauto. }
  destruct Hcase as [Hbuild | (part & Hbuild)].
  - pose proof (decode_buildClaim _ _ _ _ _ Hbuild eq_refl eq_refl
                  ltac:(eexists; reflexivity)) as Hdecode.
    apply BlockIndexFacts.buildClaim_Ok in Hbuild as (_ & Hcid & _ & _ & Hvalue).
    eexists. split; [split; [exact Hverified | rewrite Hbytes; exact Hdecode] |].
    unfold served, Client.type. cbn [Client.props Client.archive_ Client.export_].
    rewrite Hvalue. repeat split. congruence.
  - pose proof (decode_buildClaim _ _ _ _ _ Hbuild eq_refl eq_refl
                  ltac:(eexists; reflexivity)) as Hdecode.
    apply BlockIndexFacts.buildClaim_Ok in Hbuild as (_ & Hcid & _ & _ & Hvalue).
    eexists. split; [split; [exact Hverified | rewrite Hbytes; exact Hdecode] |].
    unfold served, Client.type. cbn [Client.props Client.archive_ Client.export_].
    rewrite Hvalue. repeat split. congruence.
Qed.

(** X18. The resolver and the reader fit: when the body of the response
    carries the records of [get], each under the hash of its bytes, and
    ends well, [read] returns one claim for each record, in the same
    order, with the record's bytes as archive, the record's claim
    identifier as the CID of its delegation, the subject as [content] and
    the kind of the record's capability as [type]. *)
Theorem read_serves_derived_claims (self : BlockIndexClaimFetcher) (now : Z)
    (subject : Link) (recs : list Claim)
    (globalThis_fetch : Client.Request -> result Client.Response)
    (asked : Link) (options : option Client.FetchOptions)
    (res : Client.Response) (stream : Client.BlockStream) :
  get self now subject = Ok recs ->
  Client.fetch globalThis_fetch asked options = Ok res ->
  Client.response_ok res = true ->
  Client.body res = Some stream ->
  Client.failure stream = None ->
  Forall2 (fun block rec => block_bytes block = claim_bytes rec /\ Client.verified block)
    (Client.blocks stream) recs ->
  exists claims,
    Client.read globalThis_fetch asked options = Ok claims /\
    Forall2 (served subject) recs claims.
Proof.
  intros Hget Hfetch Hok Hbody Hend Hblocks.
  assert (Hall : forall blocks sub,
            Forall (fun rec => rec ∈ recs) sub ->
            Forall2 (fun block rec =>
                       block_bytes block = claim_bytes rec /\ Client.verified block)
              blocks sub ->
            exists claims,
              Forall2 Client.accepted blocks claims /\
              Forall2 (served subject) sub claims).
  { intros blocks sub Hsub Hcarry.
    induction Hcarry as [|block rec blocks sub [Hbytes Hverified] _ IH].
    - exists []. split; constructor.
    - apply Forall_cons in Hsub as [Hin Hsub].
      destruct (IH Hsub) as (claims & Haccepted & Hserved).
      destruct (derived_claim_accepted _ _ _ _ _ _ Hget Hin Hbytes Hverified)
        as (c & Hc & Hs).
      exists (c :: claims). split; constructor; assumption. }
  destruct (Hall (Client.blocks stream) recs) as (claims & Haccepted & Hserved).
  - apply Forall_forall. auto.
  - exact Hblocks.
  - exists claims. split; [| exact Hserved].
    rewrite (ClientFacts.read_accepted _ _ _ _ _ _ Hfetch Hok Hbody Haccepted), Hend.
    reflexivity.
Qed.

End Archive.

Lemma location_claim_roundtrip_witness :
  exists c,
    Client.decode (UC := Sample.ucanto) (claim_bytes Sample.locationClaim) = Ok c /\
    Client.props c !! "location" =
      Some (VList [VStr "https://carpark-prod-0.s3.amazonaws.com/raw/bagbaiera.car"]) /\
    Client.props c !! "range" =
      Some (VMap (<["offset" := VNum 100]> (<["length" := VNum 50]> ∅))).
Proof.
  destruct (location_claim_roundtrip (UC := Sample.ucanto)
              (UA := BlockIndexFacts.sample_archive Sample.known)
              Sample.service Sample.subject
              ["https://carpark-prod-0.s3.amazonaws.com/raw/bagbaiera.car"] 100 50
              (Some (expiresAt Sample.now)) Sample.locationClaim)
    as (c & Hdecode & Hprops & _).
  - vm_compute. reflexivity.
  - exists c. split; [exact Hdecode |]. rewrite Hprops. split; reflexivity.
Defined.

Lemma relation_claim_roundtrip_witness :
  exists c,
    Client.decode (UC := Sample.ucanto) (claim_bytes Sample.relationClaim) = Ok c /\
    Client.props c !! "children" = Some (VList []) /\
    Client.type c = Some (VStr "assert/relation").
Proof.
  destruct (relation_claim_roundtrip (MF := Sample.MF) (UC := Sample.ucanto)
              (PF := Sample.PF) (UA := BlockIndexFacts.sample_archive Sample.known)
              Sample.service Sample.subject Sample.carLink 100 50
              (Some (expiresAt Sample.now)) Sample.relationClaim)
    as (c & Hdecode & Hprops & _).
  - vm_compute. reflexivity.
  - exists c. split; [exact Hdecode |]. unfold Client.type. rewrite Hprops.
    split; reflexivity.
Defined.

Lemma read_serves_derived_claims_witness :
  exists claims,
    Client.read (MF := Sample.MF) (UC := Sample.ucanto)
      (Sample.respond
         {| Client.blocks := [Sample.hashed [0]; Sample.hashed [1]];
            Client.failure := None |})
      Sample.subject None = Ok claims /\
    Forall2 (served Sample.subject) [Sample.locationClaim; Sample.relationClaim] claims.
Proof.
  apply (read_serves_derived_claims (MF := Sample.MF) (UC := Sample.ucanto)
           (PF := Sample.PF) (UA := BlockIndexFacts.sample_archive Sample.known)
           Sample.fetcher Sample.now Sample.subject
           [Sample.locationClaim; Sample.relationClaim]
           (Sample.respond
              {| Client.blocks := [Sample.hashed [0]; Sample.hashed [1]];
                 Client.failure := None |})
           Sample.subject None
           {| Client.response_ok := true; Client.status := "200"; Client.text := "";
              Client.body := Some {| Client.blocks := [Sample.hashed [0]; Sample.hashed [1]];
                                     Client.failure := None |} |}
           {| Client.blocks := [Sample.hashed [0]; Sample.hashed [1]];
              Client.failure := None |}).
  - vm_compute. reflexivity.
  - reflexivity.
  - reflexivity.
  - reflexivity.
  - reflexivity.
  - repeat constructor.
Defined.

End RoundTrip.
